(** * wings: the daemon's configuration package (config/config.go)

    A shallow embedding of the configuration store ([Set], [Get],
    [GetJwtAlgorithm], [SetDebugViaFlag]), of the persistence writer
    ([WriteToDisk]), of the identity provisioner ([EnsurePterodactylUser],
    [setSystemUser]) and of the permission reconciler
    ([EnsureFilePermissions]), together with the properties the
    specification states about them.

    Go strings are byte sequences: they are modelled by [string], whose
    characters are the bytes.  Go's [int] is the 64-bit integer of the
    daemon's targets and is modelled by [Z] inside its range. *)

From Stdlib Require Import ZArith Ascii String List Permutation Lia.
From stdpp Require Import base option list strings gmap fin_maps.

Open Scope string_scope.
Open Scope Z_scope.

(** ** Bytes and strings *)

Definition byte_val (c : ascii) : Z := Z.of_N (N_of_ascii c).

Definition in_range (lo hi c : ascii) : bool :=
  (byte_val lo <=? byte_val c) && (byte_val c <=? byte_val hi).

Fixpoint string_forallb (p : ascii -> bool) (s : string) : bool :=
  match s with
  | EmptyString => true
  | String c s' => p c && string_forallb p s'
  end.

(** [strings.HasPrefix(s, prefix)]. *)
Definition HasPrefix (s pre : string) : bool := String.prefix pre s.

(** [strings.Split(s, " ")]: the pieces of [s] between single spaces; a
    string without a space gives one piece, consecutive spaces give empty
    pieces. *)
Fixpoint Split_sp (s : string) : list string :=
  match s with
  | EmptyString => [EmptyString]
  | String c s' =>
      if Ascii.eqb c " "%char then EmptyString :: Split_sp s'
      else match Split_sp s' with
           | [] => [String c EmptyString]
           | p :: ps => String c p :: ps
           end
  end.

(** ** [strconv.Atoi]

    [Atoi(s)] is [ParseInt(s, 10, 0)] converted to [int].  The library
    returns 0 with [ErrSyntax] for an empty string or an invalid digit, and
    the nearest bound with [ErrRange] as soon as the digits read so far
    leave the range. *)

Inductive NumErr := ErrSyntax | ErrRange.

Definition intSize : Z := 64.
Definition maxUint64 : Z := 2 ^ 64 - 1.
Definition maxInt : Z := 2 ^ (intSize - 1) - 1.
Definition minInt : Z := - 2 ^ (intSize - 1).

Definition is_digit (c : ascii) : bool := in_range "0" "9" c.

(** The digit loop of [ParseUint(s, 10, 64)], [n] being the value read so
    far.  [n * 10] overflows from [cutoff] on; the sum is checked for a
    wrap-around of the 64-bit word. *)
Fixpoint ParseUint_loop (s : string) (n : Z) : Z * option NumErr :=
  match s with
  | EmptyString => (n, None)
  | String c s' =>
      if is_digit c then
        let d := byte_val c - byte_val "0" in
        let cutoff := maxUint64 / 10 + 1 in
        if cutoff <=? n then (maxUint64, Some ErrRange)
        else
          let n10 := n * 10 in
          let n1 := (n10 + d) mod 2 ^ 64 in
          if (n1 <? n10) || (maxUint64 <? n1) then (maxUint64, Some ErrRange)
          else ParseUint_loop s' n1
      else (0, Some ErrSyntax)
  end.

Definition ParseUint (s : string) : Z * option NumErr :=
  match s with
  | EmptyString => (0, Some ErrSyntax)
  | _ => ParseUint_loop s 0
  end.

Definition ParseInt (s : string) : Z * option NumErr :=
  match s with
  | EmptyString => (0, Some ErrSyntax)
  | String c s' =>
      let neg := Ascii.eqb c "-" in
      let body := if Ascii.eqb c "+" || neg then s' else s in
      match ParseUint body with
      | (_, Some ErrSyntax) => (0, Some ErrSyntax)
      | (un, _) =>
          let cutoff := 2 ^ (intSize - 1) in
          if negb neg && (cutoff <=? un) then (cutoff - 1, Some ErrRange)
          else if neg && (cutoff <? un) then (- cutoff, Some ErrRange)
          else (if neg then - un else un, None)
      end
  end.

Definition Atoi (s : string) : Z * option NumErr := ParseInt s.

(** A decimal integer literal: an optional sign and at least one digit. *)
Definition unsigned_literal (s : string) : bool :=
  negb (String.eqb s "") && string_forallb is_digit s.

Definition int_literal (s : string) : bool :=
  match s with
  | EmptyString => false
  | String c s' =>
      if Ascii.eqb c "+" || Ascii.eqb c "-" then unsigned_literal s'
      else unsigned_literal s
  end.

(** ** The directory-name pattern

    [EnsureFilePermissions] compiles
    [^[a-f0-9]{8}-[a-f0-9]{4}-4[a-f0-9]{3}-[89ab][a-f0-9]{3}-[a-f0-9]{12}$].
    The pattern is a sequence of character classes, each repeated a fixed
    number of times, anchored at both ends of the text. *)

(** A character class is a list of inclusive ranges; a literal is the class
    of one character. *)
Definition char_class := list (ascii * ascii).

Definition class_matches (cl : char_class) (c : ascii) : bool :=
  existsb (fun r => in_range (fst r) (snd r) c) cl.

Record re_item := { item_class : char_class; item_count : nat }.

Definition regex := list re_item.

Definition cls_hex : char_class := [("a", "f"); ("0", "9")]%char.
Definition cls_lit (c : ascii) : char_class := [(c, c)].
Definition cls_variant : char_class :=
  [("8", "8"); ("9", "9"); ("a", "a"); ("b", "b")]%char.

Definition rep (cl : char_class) (n : nat) : re_item :=
  {| item_class := cl; item_count := n |}.

Definition uuid4_regex : regex :=
  [ rep cls_hex 8; rep (cls_lit "-") 1;
    rep cls_hex 4; rep (cls_lit "-") 1;
    rep (cls_lit "4") 1; rep cls_hex 3; rep (cls_lit "-") 1;
    rep cls_variant 1; rep cls_hex 3; rep (cls_lit "-") 1;
    rep cls_hex 12 ].

(** Consume exactly [n] characters of the class. *)
Fixpoint match_rep (cl : char_class) (n : nat) (s : string) : option string :=
  match n with
  | O => Some s
  | S n' =>
      match s with
      | String c s' => if class_matches cl c then match_rep cl n' s' else None
      | EmptyString => None
      end
  end.

(** [r.MatchString(s)] for a pattern between [^] and [$]: the items consume
    the text from its first character, and nothing may be left. *)
Fixpoint MatchString (r : regex) (s : string) : bool :=
  match r with
  | [] => String.eqb s ""
  | it :: r' =>
      match match_rep (item_class it) (item_count it) s with
      | Some rest => MatchString r' rest
      | None => false
      end
  end.

(** The naming contract in the specification's words: the canonical
    36-character text of a version-4 UUID. *)
Definition is_lower_hex (c : ascii) : bool :=
  in_range "0" "9" c || in_range "a" "f" c.

Definition is_variant_nibble (c : ascii) : bool :=
  Ascii.eqb c "8" || Ascii.eqb c "9" || Ascii.eqb c "a" || Ascii.eqb c "b".

Definition hex_group (n : nat) (s : string) : Prop :=
  String.length s = n /\ string_forallb is_lower_hex s = true.

Definition canonical_uuid4 (name : string) : Prop :=
  exists g1 g2 g3 v g4 g5,
    name = g1 ++ "-" ++ g2 ++ "-" ++ String "4" g3 ++ "-" ++ String v g4 ++ "-" ++ g5
    /\ hex_group 8 g1 /\ hex_group 4 g2 /\ hex_group 3 g3
    /\ is_variant_nibble v = true /\ hex_group 3 g4 /\ hex_group 12 g5.

(** ** Errors *)

(** Go [error] values.  [errorString] is what [errors.New] builds,
    [UnknownUserError] is [user.UnknownUserError], and [SysError] stands for
    any error reported by the operating system or by a library. *)
Inductive error :=
  | errorString (msg : string)
  | UnknownUserError (name : string)
  | SysError (msg : string).

Definition is_UnknownUserError (e : error) : bool :=
  match e with UnknownUserError _ => true | _ => false end.

(** ** Collaborators of the [os] and [os/user] packages *)

Module user.
(** [user.User]: the identifiers are decimal strings on POSIX systems. *)
Record User := {
  Uid : string;
  Gid : string;
  Username : string;
  Name : string;
  HomeDir : string
}.
End user.

Module os.
(** The part of [os.FileInfo] the reconciler reads. *)
Record FileInfo := {
  Name : string;
  IsDir : bool
}.
End os.

(** ** The data model of config.go *)

(** Declarations of the package that config.go uses and that live in its
    other files. *)
Class PackageTypes := {
  DockerConfiguration : Type;
  SystemRest : Type
}.

Record SftpConfiguration := {
  UseInternalSystem : bool;
  DisableDiskChecking : bool;
  Address : string;
  sftp_Port : Z;
  ReadOnly : bool
}.

Record ApiSsl := {
  Enabled : bool;
  CertificateFile : string;
  KeyFile : string
}.

Record ApiConfiguration := {
  Host : string;
  Port : Z;
  Ssl : ApiSsl;
  UploadLimit : Z
}.

Record ThrottlesConfiguration := {
  KillAtCount : Z;
  DecaySeconds : Z;
  BytesPerInterval : Z;
  CheckInterval : Z
}.

(** [System.User]: the numeric identity recorded in the configuration. *)
Record SystemUser := {
  Uid : Z;
  Gid : Z
}.

Section DataModel.
Context `{PackageTypes}.

(** Modelled from the spec: [SystemConfiguration] is declared in another
    file of the package.  The fields are those config.go reads or writes
    ([c.System.Data], [c.System.Username], [c.System.User.Uid],
    [c.System.User.Gid], [c.System.SetPermissionsOnBoot]); [SystemOther]
    holds the rest. *)
Record SystemConfiguration := {
  Data : string;
  Username : string;
  User : SystemUser;
  SetPermissionsOnBoot : bool;
  SystemOther : SystemRest
}.

(** [Configuration], without its two mutexes. *)
Record Configuration := {
  path : string;
  Debug : bool;
  Uuid : string;
  AuthenticationTokenId : string;
  AuthenticationToken : string;
  Api : ApiConfiguration;
  System : SystemConfiguration;
  Docker : DockerConfiguration;
  DiskCheckTimeout : Z;
  Throttles : ThrottlesConfiguration;
  PanelLocation : string
}.

(** [ccopy.Debug = d] *)
Definition set_Debug (d : bool) (c : Configuration) : Configuration :=
  {| path := path c; Debug := d; Uuid := Uuid c;
     AuthenticationTokenId := AuthenticationTokenId c;
     AuthenticationToken := AuthenticationToken c;
     Api := Api c; System := System c; Docker := Docker c;
     DiskCheckTimeout := DiskCheckTimeout c; Throttles := Throttles c;
     PanelLocation := PanelLocation c |}.

Definition set_System (s : SystemConfiguration) (c : Configuration) : Configuration :=
  {| path := path c; Debug := Debug c; Uuid := Uuid c;
     AuthenticationTokenId := AuthenticationTokenId c;
     AuthenticationToken := AuthenticationToken c;
     Api := Api c; System := s; Docker := Docker c;
     DiskCheckTimeout := DiskCheckTimeout c; Throttles := Throttles c;
     PanelLocation := PanelLocation c |}.

(** [c.System.Username = name; c.System.User.Uid = uid;
    c.System.User.Gid = gid] *)
Definition set_identity (name : string) (uid gid : Z)
    (s : SystemConfiguration) : SystemConfiguration :=
  {| Data := Data s; Username := name;
     User := {| Uid := uid; Gid := gid |};
     SetPermissionsOnBoot := SetPermissionsOnBoot s;
     SystemOther := SystemOther s |}.

(** *** Pointers *)

Definition loc := nat.

(** A [*Configuration] or a [*jwt.HMACSHA]: [nil] or the address of an
    object. *)
Inductive ptr := nil | addr (l : loc).

(** [jwt.HMACSHA] as built by [jwt.NewHS256]. *)
Record HMACSHA := {
  alg_name : string;
  alg_key : string
}.

(** *** The operating system *)

(** How one [ioutil.WriteFile] goes wrong: not at all, when the file is
    opened, after [n] bytes have been written, or when it is closed. *)
Inductive WriteFault :=
  | NoFault
  | OpenFails (e : error)
  | WriteFails (n : nat) (e : error)
  | CloseFails (e : error).

Record OS := {
  (** the account database *)
  accounts : list user.User;
  (** lookups that fail for another reason than an unknown account *)
  lookup_fault : string -> option error;
  (** what an external command does to the account database *)
  command_effect : list string -> list user.User -> list user.User * option error;
  (** [osrelease.Read] *)
  os_release : error + gmap string string;
  (** files and their contents *)
  files : gmap string string;
  write_fault : string -> WriteFault;
  (** [ioutil.ReadDir] *)
  dir_listing : string -> error + list os.FileInfo;
  (** owner and group of the paths changed so far *)
  owners : gmap string (Z * Z);
  chown_fault : string -> option error;
  (** the order in which the runtime runs a batch of goroutines *)
  go_schedule : list os.FileInfo -> list os.FileInfo
}.

Definition with_accounts (a : list user.User) (o : OS) : OS :=
  {| accounts := a; lookup_fault := lookup_fault o;
     command_effect := command_effect o; os_release := os_release o;
     files := files o; write_fault := write_fault o;
     dir_listing := dir_listing o; owners := owners o;
     chown_fault := chown_fault o; go_schedule := go_schedule o |}.

Definition with_files (f : gmap string string) (o : OS) : OS :=
  {| accounts := accounts o; lookup_fault := lookup_fault o;
     command_effect := command_effect o; os_release := os_release o;
     files := f; write_fault := write_fault o;
     dir_listing := dir_listing o; owners := owners o;
     chown_fault := chown_fault o; go_schedule := go_schedule o |}.

Definition with_owners (ow : gmap string (Z * Z)) (o : OS) : OS :=
  {| accounts := accounts o; lookup_fault := lookup_fault o;
     command_effect := command_effect o; os_release := os_release o;
     files := files o; write_fault := write_fault o;
     dir_listing := dir_listing o; owners := ow;
     chown_fault := chown_fault o; go_schedule := go_schedule o |}.

(** What the process did to the outside, oldest first.  [EvFile name s]:
    the file [name] now holds [s]. *)
Inductive event :=
  | EvNewHS256 (key : string)
  | EvExec (argv : list string)
  | EvChown (name : string) (uid gid : Z)
  | EvWarn (msg directory : string) (e : error)
  | EvFile (name content : string).

(** *** The process *)

(** The heap of [Configuration] objects, the [jwt.HMACSHA] objects
    allocated so far (the address of one is its index), the package
    variables [_config], [_jwtAlgo] and [_debugViaFlag], the operating
    system and the trace. *)
Record World := {
  heap : gmap loc Configuration;
  algos : list HMACSHA;
  _config : ptr;
  _jwtAlgo : ptr;
  _debugViaFlag : bool;
  opsys : OS;
  trace : list event
}.

Definition with_heap (h : gmap loc Configuration) (w : World) : World :=
  {| heap := h; algos := algos w; _config := _config w;
     _jwtAlgo := _jwtAlgo w; _debugViaFlag := _debugViaFlag w;
     opsys := opsys w; trace := trace w |}.

Definition with_algos (a : list HMACSHA) (w : World) : World :=
  {| heap := heap w; algos := a; _config := _config w;
     _jwtAlgo := _jwtAlgo w; _debugViaFlag := _debugViaFlag w;
     opsys := opsys w; trace := trace w |}.

Definition with_config (p : ptr) (w : World) : World :=
  {| heap := heap w; algos := algos w; _config := p;
     _jwtAlgo := _jwtAlgo w; _debugViaFlag := _debugViaFlag w;
     opsys := opsys w; trace := trace w |}.

Definition with_jwtAlgo (p : ptr) (w : World) : World :=
  {| heap := heap w; algos := algos w; _config := _config w;
     _jwtAlgo := p; _debugViaFlag := _debugViaFlag w;
     opsys := opsys w; trace := trace w |}.

Definition with_debugViaFlag (d : bool) (w : World) : World :=
  {| heap := heap w; algos := algos w; _config := _config w;
     _jwtAlgo := _jwtAlgo w; _debugViaFlag := d;
     opsys := opsys w; trace := trace w |}.

Definition with_opsys (o : OS) (w : World) : World :=
  {| heap := heap w; algos := algos w; _config := _config w;
     _jwtAlgo := _jwtAlgo w; _debugViaFlag := _debugViaFlag w;
     opsys := o; trace := trace w |}.

Definition emit (e : event) (w : World) : World :=
  {| heap := heap w; algos := algos w; _config := _config w;
     _jwtAlgo := _jwtAlgo w; _debugViaFlag := _debugViaFlag w;
     opsys := opsys w; trace := trace w ++ [e] |}.

(** [*p]; [None] is the nil-pointer panic. *)
Definition deref (p : ptr) (w : World) : option Configuration :=
  match p with
  | nil => None
  | addr l => heap w !! l
  end.

Definition deref_algo (p : ptr) (w : World) : option HMACSHA :=
  match p with
  | nil => None
  | addr l => algos w !! l
  end.

End DataModel.

(** Library functions whose results the package only passes on:
    [yaml.Marshal] on a configuration and [path.Join] on two elements. *)
Class Libraries `{PackageTypes} := {
  yaml_Marshal : Configuration -> error + string;
  path_Join : string -> string -> string
}.

(** ** The operations of config.go *)

Section Operations.
Context `{Libraries}.

(** A computation of the process: it runs in a world and either panics
    ([None]) or returns a value and the world it leaves.  Go's error
    results are ordinary values: [None : option error] is the nil error. *)
Definition M (A : Type) : Type := World -> option (A * World).

Definition ret {A} (a : A) : M A := fun w => Some (a, w).

Definition bind {A B} (m : M A) (k : A -> M B) : M B :=
  fun w => match m w with
           | Some (a, w') => k a w'
           | None => None
           end.

Notation "'let*' x ':=' m 'in' k" := (bind m (fun x => k))
  (at level 10, x pattern, m at level 100, k at level 200).

Definition load (p : ptr) : M Configuration :=
  fun w => match deref p w with
           | Some c => Some (c, w)
           | None => None
           end.

Definition store (p : ptr) (c : Configuration) : M unit :=
  fun w => match p with
           | addr l => Some (tt, with_heap (<[l := c]> (heap w)) w)
           | nil => None
           end.

Definition the_os : M OS := fun w => Some (opsys w, w).

Definition set_os (o : OS) : M unit := fun w => Some (tt, with_opsys o w).

Definition tell (e : event) : M unit := fun w => Some (tt, emit e w).

(** Reading and writing the package variables. *)
Definition debug_via_flag : M bool := fun w => Some (_debugViaFlag w, w).

Definition read_config : M ptr := fun w => Some (_config w, w).

Definition write_config (p : ptr) : M unit := fun w => Some (tt, with_config p w).

Definition write_jwtAlgo (p : ptr) : M unit := fun w => Some (tt, with_jwtAlgo p w).

(** *** Library calls *)

(** [jwt.NewHS256(key)]: a new object at a fresh address. *)
Definition jwt_NewHS256 (key : string) : M ptr :=
  fun w =>
    let a := {| alg_name := "HS256"; alg_key := key |} in
    Some (addr (length (algos w)),
          emit (EvNewHS256 key) (with_algos (algos w ++ [a]) w)).

(** [user.Lookup(name)] *)
Definition lookup_account (name : string) (o : OS) : error + user.User :=
  match lookup_fault o name with
  | Some e => inl e
  | None =>
      match List.find (fun u => String.eqb (user.Username u) name) (accounts o) with
      | Some u => inr u
      | None => inl (UnknownUserError name)
      end
  end.

Definition user_Lookup (name : string) : M (error + user.User) :=
  let* o := the_os in ret (lookup_account name o).

(** [exec.Command(argv[0], argv[1:]...).Output()]; the output is dropped
    by every caller. *)
Definition exec_Output (argv : list string) : M (option error) :=
  let* _ := tell (EvExec argv) in
  let* o := the_os in
  let r := command_effect o argv (accounts o) in
  let* _ := set_os (with_accounts (fst r) o) in
  ret (snd r).

(** [osrelease.Read()] *)
Definition osrelease_Read : M (error + gmap string string) :=
  let* o := the_os in ret (os_release o).

(** [ioutil.ReadDir(dirname)] *)
Definition ioutil_ReadDir (dirname : string) : M (error + list os.FileInfo) :=
  let* o := the_os in ret (dir_listing o dirname).

(** [os.Chown(name, uid, gid)] *)
Definition os_Chown (name : string) (uid gid : Z) : M (option error) :=
  let* _ := tell (EvChown name uid gid) in
  let* o := the_os in
  match chown_fault o name with
  | Some e => ret (Some e)
  | None =>
      let* _ := set_os (with_owners (<[name := (uid, gid)]> (owners o)) o) in
      ret None
  end.

(** [zap.S().Warnw(msg, zap.String("directory", d), zap.Error(e))] *)
Definition zap_Warnw (msg d : string) (e : error) : M unit :=
  tell (EvWarn msg d e).

Fixpoint string_take (n : nat) (s : string) : string :=
  match n, s with
  | S n', String c s' => String c (string_take n' s')
  | _, _ => EmptyString
  end.

(** [ioutil.WriteFile(name, data, perm)] opens the file with
    [O_WRONLY|O_CREATE|O_TRUNC], writes [data] and closes the file.
    [WriteFile_contents] lists what the file holds after each call that
    changes it, with the error returned. *)
Definition WriteFile_contents (data : string) (fault : WriteFault)
    : list string * option error :=
  match fault with
  | OpenFails e => ([], Some e)
  | WriteFails n e => ([""; string_take n data], Some e)
  | CloseFails e => ([""; data], Some e)
  | NoFault => ([""; data], None)
  end.

(** The file [name] takes the contents [ss] one after the other; each is
    visible to whoever reads the file at that moment. *)
Fixpoint put_contents (name : string) (ss : list string) : M unit :=
  match ss with
  | [] => ret tt
  | s :: ss' =>
      let* o := the_os in
      let* _ := set_os (with_files (<[name := s]> (files o)) o) in
      let* _ := tell (EvFile name s) in
      put_contents name ss'
  end.

(** The permission bits matter when the file is created; they are not
    tracked. *)
Definition ioutil_WriteFile (name data : string) (perm : Z) : M (option error) :=
  let* o := the_os in
  let r := WriteFile_contents data (write_fault o name) in
  let* _ := put_contents name (fst r) in
  ret (snd r).

(** *** The store *)

(** [Set(c)]; [Set] is a reserved word here. *)
Definition Set_ (c : ptr) : M unit :=
  let* cur := read_config in
  let* changed :=
    match cur with
    | nil => ret true
    | addr _ =>
        let* old := load cur in
        let* new := load c in
        ret (negb (String.eqb (AuthenticationToken old) (AuthenticationToken new)))
    end in
  let* _ :=
    if changed then
      let* new := load c in
      let* a := jwt_NewHS256 (AuthenticationToken new) in
      write_jwtAlgo a
    else ret tt in
  write_config c.

(** [SetDebugViaFlag(d)] *)
Definition SetDebugViaFlag (d : bool) : M unit :=
  fun w => Some (tt, with_debugViaFlag d w).

(** [Get()] *)
Definition Get : M ptr := fun w => Some (_config w, w).

(** [GetJwtAlgorithm()] *)
Definition GetJwtAlgorithm : M ptr := fun w => Some (_jwtAlgo w, w).

(** [c.GetPath()] *)
Definition GetPath (c : ptr) : M string :=
  let* cfg := load c in ret (path cfg).

(** *** The persistence writer *)

Definition no_path_msg : string :=
  "cannot write configuration, no path defined in struct".

(** [c.WriteToDisk()] *)
Definition WriteToDisk (c : ptr) : M (option error) :=
  let* ccopy := load c in
  let* flag := debug_via_flag in
  let ccopy := if flag then set_Debug false ccopy else ccopy in
  let* cfg := load c in
  if String.eqb (path cfg) "" then ret (Some (errorString no_path_msg))
  else
    match yaml_Marshal ccopy with
    | inl err => ret (Some err)
    | inr b =>
        let* p := GetPath c in
        ioutil_WriteFile p b 420
    end.

(** *** The identity provisioner *)

(** [c.setSystemUser(u)] *)
Definition setSystemUser (c : ptr) (u : user.User) : M (option error) :=
  let uid := fst (Atoi (user.Uid u)) in
  let gid := fst (Atoi (user.Gid u)) in
  let* cfg := load c in
  let* _ := store c (set_System (set_identity (user.Username u) uid gid (System cfg)) cfg) in
  WriteToDisk c.

(** [getSystemName()] *)
Definition getSystemName : M (string * option error) :=
  let* r := osrelease_Read in
  match r with
  | inl err => ret ("", Some err)
  | inr release => ret (default "" (release !! "ID"), None)
  end.

Definition useradd_command (name : string) : string :=
  "useradd --system --no-create-home --shell /bin/false " ++ name.

Definition adduser_command (name : string) : string :=
  "adduser -S -D -H -G " ++ name ++ " -s /bin/false " ++ name.

(** [c.EnsurePterodactylUser()]; the first component of the result is
    the [*user.User], [None] for nil. *)
Definition EnsurePterodactylUser (c : ptr) : M (option user.User * option error) :=
  let* cfg := load c in
  let* r := user_Lookup (Username (System cfg)) in
  match r with
  | inr u =>
      let* e := setSystemUser c u in ret (Some u, e)
  | inl err =>
      if negb (is_UnknownUserError err) then ret (None, Some err)
      else
        let* sn := getSystemName in
        match snd sn with
        | Some err => ret (None, Some err)
        | None =>
            let sysName := fst sn in
            let* cfg := load c in
            let alpine := HasPrefix sysName "alpine" in
            let command :=
              if alpine then adduser_command (Username (System cfg))
              else useradd_command (Username (System cfg)) in
            let* ge :=
              if alpine then exec_Output ["addgroup"; "-S"; Username (System cfg)]
              else ret None in
            match ge with
            | Some err => ret (None, Some err)
            | None =>
                let* ce := exec_Output (Split_sp command) in
                match ce with
                | Some err => ret (None, Some err)
                | None =>
                    let* cfg := load c in
                    let* r := user_Lookup (Username (System cfg)) in
                    match r with
                    | inl err => ret (None, Some err)
                    | inr u => let* e := setSystemUser c u in ret (Some u, e)
                    end
                end
            end
        end
  end.

(** The account [EnsurePterodactylUser] hands to [setSystemUser]: the
    one its first lookup finds, or the one found after the creation; the
    error it returns otherwise.  [EnsurePterodactylUser_resolve] relates
    the two. *)
Definition resolve_account (c : ptr) : M (error + user.User) :=
  let* cfg := load c in
  let* r := user_Lookup (Username (System cfg)) in
  match r with
  | inr u => ret (inr u)
  | inl err =>
      if negb (is_UnknownUserError err) then ret (inl err)
      else
        let* sn := getSystemName in
        match snd sn with
        | Some err => ret (inl err)
        | None =>
            let sysName := fst sn in
            let* cfg := load c in
            let alpine := HasPrefix sysName "alpine" in
            let command :=
              if alpine then adduser_command (Username (System cfg))
              else useradd_command (Username (System cfg)) in
            let* ge :=
              if alpine then exec_Output ["addgroup"; "-S"; Username (System cfg)]
              else ret None in
            match ge with
            | Some err => ret (inl err)
            | None =>
                let* ce := exec_Output (Split_sp command) in
                match ce with
                | Some err => ret (inl err)
                | None =>
                    let* cfg := load c in
                    user_Lookup (Username (System cfg))
                end
            end
        end
  end.

(** *** The permission reconciler *)

Definition chown_warning : string := "failed to chown server directory".

(** The body of the goroutine started for the entry [f]. *)
Definition chown_entry (c : ptr) (su : user.User) (f : os.FileInfo) : M unit :=
  if negb (os.IsDir f) || negb (MatchString uuid4_regex (os.Name f)) then ret tt
  else
    let uid := fst (Atoi (user.Uid su)) in
    let gid := fst (Atoi (user.Gid su)) in
    let* cfg := load c in
    let* e := os_Chown (path_Join (Data (System cfg)) (os.Name f)) uid gid in
    match e with
    | Some err => zap_Warnw chown_warning (os.Name f) err
    | None => ret tt
    end.

(** One goroutine per entry, run to completion before [wg.Wait()]
    returns.  Each body is taken as one step; the runtime chooses the
    order of the steps. *)
Fixpoint run_all (c : ptr) (su : user.User) (fs : list os.FileInfo) : M unit :=
  match fs with
  | [] => ret tt
  | f :: fs' => let* _ := chown_entry c su f in run_all c su fs'
  end.

(** [c.EnsureFilePermissions()] *)
Definition EnsureFilePermissions (c : ptr) : M (option error) :=
  let* cfg := load c in
  if negb (SetPermissionsOnBoot (System cfg)) then ret None
  else
    let* cfg := load c in
    let* r := ioutil_ReadDir (Data (System cfg)) in
    match r with
    | inl err => ret (Some err)
    | inr files =>
        let* cfg := load c in
        let* r := user_Lookup (Username (System cfg)) in
        match r with
        | inl err => ret (Some err)
        | inr su =>
            let* o := the_os in
            let* _ := run_all c su (go_schedule o files) in
            ret None
        end
    end.

End Operations.

(** ** Observations on worlds and traces *)

Section Observations.
Context `{Libraries}.

(** The events of [w'] that came after [w]. *)
Definition events_since (w w' : World) : list event :=
  List.skipn (length (trace w)) (trace w').

Definition is_exec (e : event) : bool :=
  match e with EvExec _ => true | _ => false end.

Definition is_chown (e : event) : bool :=
  match e with EvChown _ _ _ => true | _ => false end.

(** The commands run and the ownership changes attempted in a trace. *)
Definition commands (t : list event) : list event := List.filter is_exec t.

Definition chowns (t : list event) : list event := List.filter is_chown t.

(** The world after the file [name] has taken the contents [ss]. *)
Fixpoint written (name : string) (ss : list string) (w : World) : World :=
  match ss with
  | [] => w
  | s :: ss' =>
      written name ss'
        (emit (EvFile name s)
           (with_opsys (with_files (<[name := s]> (files (opsys w))) (opsys w)) w))
  end.

(** The world in which the object at [c] is [cfg]. *)
Definition updated (c : ptr) (cfg : Configuration) (w : World) : World :=
  match c with
  | addr l => with_heap (<[l := cfg]> (heap w)) w
  | nil => w
  end.

(** The configuration after [setSystemUser] has recorded [u] in it. *)
Definition record_identity (u : user.User) (cfg : Configuration) : Configuration :=
  set_System
    (set_identity (user.Username u) (fst (Atoi (user.Uid u)))
       (fst (Atoi (user.Gid u))) (System cfg))
    cfg.

(** What [WriteToDisk] hands to the serializer. *)
Definition persisted (flag : bool) (cfg : Configuration) : Configuration :=
  if flag then set_Debug false cfg else cfg.

(** The entries the reconciler acts on, and the call it makes for one. *)
Definition qualifies (f : os.FileInfo) : bool :=
  os.IsDir f && MatchString uuid4_regex (os.Name f).

Definition chown_of (cfg : Configuration) (su : user.User) (f : os.FileInfo) : event :=
  EvChown (path_Join (Data (System cfg)) (os.Name f))
    (fst (Atoi (user.Uid su))) (fst (Atoi (user.Gid su))).

(** What the goroutine of the entry [f] does: nothing, or one ownership
    change followed by a warning when the change is refused. *)
Definition entry_events (cfg : Configuration) (su : user.User)
    (fault : string -> option error) (f : os.FileInfo) : list event :=
  if qualifies f then
    chown_of cfg su f ::
      match fault (path_Join (Data (System cfg)) (os.Name f)) with
      | Some err => [EvWarn chown_warning (os.Name f) err]
      | None => []
      end
  else [].

(** The statement that a successful listing alone makes
    [EnsureFilePermissions] return nil. *)
Definition returns_nil_once_listed (c : ptr) (w : World) : Prop :=
  forall cfg entries,
    deref c w = Some cfg ->
    SetPermissionsOnBoot (System cfg) = true ->
    dir_listing (opsys w) (Data (System cfg)) = inr entries ->
    exists w', EnsureFilePermissions c w = Some (None, w').

(** The exported calls of the package, to speak of a sequence of them. *)
Inductive call :=
  | CallSet (c : ptr)
  | CallSetDebugViaFlag (d : bool)
  | CallGet
  | CallGetJwtAlgorithm
  | CallGetPath (c : ptr)
  | CallEnsurePterodactylUser (c : ptr)
  | CallEnsureFilePermissions (c : ptr)
  | CallWriteToDisk (c : ptr).

Definition is_Set (k : call) : bool :=
  match k with CallSet _ => true | _ => false end.

Definition run_call (k : call) : M unit :=
  match k with
  | CallSet c => Set_ c
  | CallSetDebugViaFlag d => SetDebugViaFlag d
  | CallGet => bind Get (fun _ => ret tt)
  | CallGetJwtAlgorithm => bind GetJwtAlgorithm (fun _ => ret tt)
  | CallGetPath c => bind (GetPath c) (fun _ => ret tt)
  | CallEnsurePterodactylUser c => bind (EnsurePterodactylUser c) (fun _ => ret tt)
  | CallEnsureFilePermissions c => bind (EnsureFilePermissions c) (fun _ => ret tt)
  | CallWriteToDisk c => bind (WriteToDisk c) (fun _ => ret tt)
  end.

Fixpoint run_calls (ks : list call) : M unit :=
  match ks with
  | [] => ret tt
  | k :: ks' => bind (run_call k) (fun _ => run_calls ks')
  end.

(** The package variables of a process that has just started. *)
Definition process_start (w : World) : Prop :=
  _config w = nil /\ _jwtAlgo w = nil /\ _debugViaFlag w = false.



(** The package variables of the store are the same in both worlds. *)
Definition same_store (w w' : World) : Prop :=
  _config w' = _config w /\ _jwtAlgo w' = _jwtAlgo w.


(** [EnsurePterodactylUser] returns the account [u] for the object
    [cfg] at [c], records it and runs no command. *)
Definition found_without_creating (c : ptr) (u : user.User)
    (cfg : Configuration) (w : World) : Prop :=
  exists e w',
    EnsurePterodactylUser c w = Some ((Some u, e), w')
    /\ commands (trace w') = commands (trace w)
    /\ accounts (opsys w') = accounts (opsys w)
    /\ deref c w' = Some (record_identity u cfg).

(** The statement that an identifier [Atoi] reports an error for is
    recorded as 0. *)
Definition unparsed_recorded_as_zero (c : ptr) (u : user.User) (w : World) : Prop :=
  forall e w' cfg',
    setSystemUser c u w = Some (e, w') ->
    deref c w' = Some cfg' ->
    (snd (Atoi (user.Uid u)) <> None -> Uid (User (System cfg')) = 0)
    /\ (snd (Atoi (user.Gid u)) <> None -> Gid (User (System cfg')) = 0).

(** Everything but the files and the trace. *)
Definition same_but_files (w w' : World) : Prop :=
  heap w' = heap w /\ algos w' = algos w /\ _config w' = _config w
  /\ _jwtAlgo w' = _jwtAlgo w /\ _debugViaFlag w' = _debugViaFlag w
  /\ accounts (opsys w') = accounts (opsys w)
  /\ lookup_fault (opsys w') = lookup_fault (opsys w)
  /\ command_effect (opsys w') = command_effect (opsys w)
  /\ os_release (opsys w') = os_release (opsys w)
  /\ write_fault (opsys w') = write_fault (opsys w)
  /\ dir_listing (opsys w') = dir_listing (opsys w)
  /\ owners (opsys w') = owners (opsys w)
  /\ chown_fault (opsys w') = chown_fault (opsys w)
  /\ go_schedule (opsys w') = go_schedule (opsys w).

(** [m] relates every world it runs in to the world it leaves. *)
Definition preserves {A} (R : World -> World -> Prop) (m : M A) : Prop :=
  forall w a w', m w = Some (a, w') -> R w w'.

End Observations.

(** ** Loading a configuration *)

(** What [ReadConfiguration] takes from outside config.go: the zero values
    of the types declared in the other files, the reads that fail although
    the file exists, [defaults.Set], [os.ExpandEnv] and [yaml.Unmarshal]
    (the last two as functions of the bytes read). *)
Class Loader `{PackageTypes} := {
  zero_Docker : DockerConfiguration;
  zero_SystemRest : SystemRest;
  read_fault : string -> option error;
  defaults_Set : Configuration -> error + Configuration;
  os_ExpandEnv : string -> string;
  yaml_Unmarshal : string -> Configuration -> error + Configuration
}.

Section Loading.
Context `{Loader}.

Notation "'let*' x ':=' m 'in' k" := (bind m (fun x => k))
  (at level 10, x pattern, m at level 100, k at level 200).

(** The value of [new(Configuration)]: every field is the zero of its
    type. *)
Definition zero_Configuration : Configuration :=
  {| path := ""; Debug := false; Uuid := "";
     AuthenticationTokenId := ""; AuthenticationToken := "";
     Api := {| Host := ""; Port := 0;
               Ssl := {| Enabled := false; CertificateFile := ""; KeyFile := "" |};
               UploadLimit := 0 |};
     System := {| Data := ""; Username := ""; User := {| Uid := 0; Gid := 0 |};
                  SetPermissionsOnBoot := false; SystemOther := zero_SystemRest |};
     Docker := zero_Docker;
     DiskCheckTimeout := 0;
     Throttles := {| KillAtCount := 0; DecaySeconds := 0;
                     BytesPerInterval := 0; CheckInterval := 0 |};
     PanelLocation := "" |}.

(** [c.path = p] *)
Definition set_path (p : string) (c : Configuration) : Configuration :=
  {| path := p; Debug := Debug c; Uuid := Uuid c;
     AuthenticationTokenId := AuthenticationTokenId c;
     AuthenticationToken := AuthenticationToken c;
     Api := Api c; System := System c; Docker := Docker c;
     DiskCheckTimeout := DiskCheckTimeout c; Throttles := Throttles c;
     PanelLocation := PanelLocation c |}.

(** [ioutil.ReadFile(name)] *)
Definition ioutil_ReadFile (name : string) : M (error + string) :=
  let* o := the_os in
  match read_fault name with
  | Some e => ret (inl e)
  | None =>
      match files o !! name with
      | Some b => ret (inr b)
      | None => ret (inl (SysError "no such file or directory"))
      end
  end.

(** [new(Configuration)]: a zero object at an address no object has. *)
Definition new_Configuration : M ptr :=
  fun w =>
    let l := fresh (dom (heap w)) in
    Some (addr l, with_heap (<[l := zero_Configuration]> (heap w)) w).

(** [ReadConfiguration(path)].  [defaults.Set] and [yaml.Unmarshal] fill the
    object they are given; the object they leave after an error is dropped
    by the caller. *)
Definition ReadConfiguration (p : string) : M (ptr * option error) :=
  let* r := ioutil_ReadFile p in
  match r with
  | inl err => ret (nil, Some err)
  | inr b =>
      let* c := new_Configuration in
      let* cfg := load c in
      match defaults_Set cfg with
      | inl err => ret (nil, Some err)
      | inr cfg =>
          let* _ := store c cfg in
          let* cfg := load c in
          let* _ := store c (set_path p cfg) in
          let b := os_ExpandEnv b in
          let* cfg := load c in
          match yaml_Unmarshal b cfg with
          | inl err => ret (nil, Some err)
          | inr cfg =>
              let* _ := store c cfg in
              ret (c, None)
          end
      end
  end.

End Loading.

(** ** Further observations *)

Section Invariants.
Context `{Libraries}.

(** The key the store holds is the HS256 algorithm of the token of the
    configuration it holds, and there is neither before the first [Set]. *)
Definition key_consistent (w : World) : Prop :=
  match _config w with
  | nil => _jwtAlgo w = nil
  | addr _ =>
      exists cfg a,
        deref (_config w) w = Some cfg
        /\ deref_algo (_jwtAlgo w) w = Some a
        /\ alg_name a = "HS256"
        /\ alg_key a = AuthenticationToken cfg
  end.

(** The store variables, the algorithms and the token of every object are
    the same in both worlds. *)
Definition tokens_kept (w w' : World) : Prop :=
  same_store w w' /\ algos w' = algos w
  /\ forall l, AuthenticationToken <$> heap w' !! l
               = AuthenticationToken <$> heap w !! l.

(** [strings.Join(pieces, " ")] *)
Fixpoint Join_sp (pieces : list string) : string :=
  match pieces with
  | [] => ""
  | [p] => p
  | p :: ps => p ++ " " ++ Join_sp ps
  end.

Definition space_free (s : string) : bool :=
  string_forallb (fun c => negb (Ascii.eqb c " ")) s.

(** The number a string of digits writes, read after the value [n]. *)
Fixpoint decimal_from (n : Z) (s : string) : Z :=
  match s with
  | EmptyString => n
  | String c s' => decimal_from (n * 10 + (byte_val c - byte_val "0")) s'
  end.

Definition decimal_value (s : string) : Z := decimal_from 0 s.

(** The characters of a workload directory name. *)
Definition is_uuid_char (c : ascii) : bool :=
  is_lower_hex c || Ascii.eqb c "-".

(** The path of the entry [f] and whether the change of its owner goes
    through. *)
Definition entry_path (cfg : Configuration) (f : os.FileInfo) : string :=
  path_Join (Data (System cfg)) (os.Name f).

Definition chown_succeeds (cfg : Configuration) (fault : string -> option error)
    (f : os.FileInfo) : bool :=
  qualifies f && match fault (entry_path cfg f) with
                 | None => true
                 | Some _ => false
                 end.

(** Whether [p] is the path of an entry of [fs] whose owner is changed. *)
Definition reowned (cfg : Configuration) (fault : string -> option error)
    (fs : list os.FileInfo) (p : string) : bool :=
  existsb (fun f => chown_succeeds cfg fault f && String.eqb (entry_path cfg f) p) fs.

(** The error of the command [argv] run in [w], and the world it leaves. *)
Definition exec_err (argv : list string) (w : World) : option error :=
  snd (command_effect (opsys w) argv (accounts (opsys w))).

Definition ran (argv : list string) (w : World) : World :=
  with_opsys
    (with_accounts (fst (command_effect (opsys w) argv (accounts (opsys w)))) (opsys w))
    (emit (EvExec argv) w).

(** The arguments of the two commands of the provisioner. *)
Definition useradd_argv (name : string) : list string :=
  Split_sp (useradd_command name).

Definition adduser_argv (name : string) : list string :=
  Split_sp (adduser_command name).

Definition addgroup_argv (name : string) : list string :=
  ["addgroup"; "-S"; name].

(** Every object but the one at [c] is the same in both worlds. *)
Definition others_kept (c : ptr) (w w' : World) : Prop :=
  forall l, addr l <> c -> heap w' !! l = heap w !! l.

(** Everything but the owners and the trace. *)
Definition same_but_owners (w w' : World) : Prop :=
  heap w' = heap w /\ same_store w w'
  /\ accounts (opsys w') = accounts (opsys w)
  /\ lookup_fault (opsys w') = lookup_fault (opsys w)
  /\ files (opsys w') = files (opsys w)
  /\ dir_listing (opsys w') = dir_listing (opsys w)
  /\ chown_fault (opsys w') = chown_fault (opsys w)
  /\ go_schedule (opsys w') = go_schedule (opsys w).

(** The fields [setSystemUser] does not assign. *)
Definition same_but_identity (cfg cfg' : Configuration) : Prop :=
  path cfg' = path cfg /\ Debug cfg' = Debug cfg /\ Uuid cfg' = Uuid cfg
  /\ AuthenticationTokenId cfg' = AuthenticationTokenId cfg
  /\ AuthenticationToken cfg' = AuthenticationToken cfg
  /\ Api cfg' = Api cfg /\ Docker cfg' = Docker cfg
  /\ DiskCheckTimeout cfg' = DiskCheckTimeout cfg
  /\ Throttles cfg' = Throttles cfg /\ PanelLocation cfg' = PanelLocation cfg
  /\ Data (System cfg') = Data (System cfg)
  /\ SetPermissionsOnBoot (System cfg') = SetPermissionsOnBoot (System cfg)
  /\ SystemOther (System cfg') = SystemOther (System cfg).

End Invariants.

(** ** Concrete instances

    A host with no Docker settings, a serializer that prints three fields,
    and [path.Join] on two clean elements; the examples run on them. *)

Definition demo_types : PackageTypes :=
  {| DockerConfiguration := unit; SystemRest := unit |}.

Definition bool_text (b : bool) : string := if b then "true" else "false".

Definition demo_marshal (c : @Configuration demo_types) : error + string :=
  inr ("debug: " ++ bool_text (Debug c) ++ "; token: " ++ AuthenticationToken c
       ++ "; username: " ++ Username (System c)).

Definition demo_libs : @Libraries demo_types :=
  {| yaml_Marshal := demo_marshal;
     path_Join := fun d n => d ++ "/" ++ n |}.

Definition demo_system : @SystemConfiguration demo_types :=
  {| Data := "/srv/daemon-data"; Username := "pterodactyl";
     User := {| Uid := 0; Gid := 0 |};
     SetPermissionsOnBoot := true;
     SystemOther := (tt : @SystemRest demo_types) |}.

Definition demo_config (token : string) (debug : bool) : @Configuration demo_types :=
  {| path := "/etc/pterodactyl/config.yml"; Debug := debug;
     Uuid := "node-1"; AuthenticationTokenId := "id-1";
     AuthenticationToken := token;
     Api := {| Host := "0.0.0.0"; Port := 8080;
               Ssl := {| Enabled := false; CertificateFile := ""; KeyFile := "" |};
               UploadLimit := 100 |};
     System := demo_system; Docker := (tt : @DockerConfiguration demo_types);
     DiskCheckTimeout := 30;
     Throttles := {| KillAtCount := 5; DecaySeconds := 10;
                     BytesPerInterval := 4096; CheckInterval := 100 |};
     PanelLocation := "https://panel.example.com" |}.

Definition demo_account (uid gid : string) : user.User :=
  {| user.Uid := uid; user.Gid := gid; user.Username := "pterodactyl";
     user.Name := ""; user.HomeDir := "/home/pterodactyl" |}.

Definition demo_entries : list os.FileInfo :=
  [ {| os.Name := "a1b2c3d4-e5f6-4789-8abc-def012345678"; os.IsDir := true |};
    {| os.Name := "notadirectory.txt"; os.IsDir := false |};
    {| os.Name := "plain-folder"; os.IsDir := true |} ].

(** [useradd] and [adduser] create the account named by their last
    argument, with the identifiers 998. *)
Definition demo_command (argv : list string) (db : list user.User)
    : list user.User * option error :=
  let prog := List.hd "" argv in
  if String.eqb prog "useradd" || String.eqb prog "adduser" then
    ((db ++ [ {| user.Uid := "998"; user.Gid := "998";
                 user.Username := List.last argv ""; user.Name := "";
                 user.HomeDir := "" |} ])%list, None)
  else (db, None).

(** A host on which nothing fails, except the ownership changes listed in
    [denied] and the writes as [wf] says. *)
Definition demo_os (db : list user.User) (denied : list string) (wf : WriteFault) : OS :=
  {| accounts := db;
     lookup_fault := fun _ => None;
     command_effect := demo_command;
     os_release := inr {[ "ID" := "debian" ]};
     files := {[ "/etc/pterodactyl/config.yml" := "debug: true" ]};
     write_fault := fun _ => wf;
     dir_listing := fun d =>
       if String.eqb d "/srv/daemon-data" then inr demo_entries
       else inl (SysError "no such file or directory");
     owners := ∅;
     chown_fault := fun p =>
       if existsb (String.eqb p) denied then Some (SysError "permission denied")
       else None;
     go_schedule := fun l => rev l |}.

(** A process that has loaded two configurations, at addresses 0 and 1,
    and not yet called [Set]. *)
Definition demo_path : string := "/etc/pterodactyl/config.yml".

Definition demo_uuid_dir : string :=
  "/srv/daemon-data/a1b2c3d4-e5f6-4789-8abc-def012345678".

Definition demo_world (o : OS) (flag : bool) : @World demo_types :=
  {| heap := {[ 0%nat := demo_config "secret" true;
                1%nat := demo_config "secret" false ]};
     algos := [];
     _config := nil; _jwtAlgo := nil; _debugViaFlag := flag;
     opsys := o; trace := [] |}.

Definition demo_found : user.User := demo_account "1000" "1000".

(** The account exists and nothing fails; the debug flag is off, or on. *)
Definition demo_quiet : @World demo_types :=
  demo_world (demo_os [demo_found] [] NoFault) false.

Definition demo_flagged : @World demo_types :=
  demo_world (demo_os [demo_found] [] NoFault) true.

(** The account does not exist yet. *)
Definition demo_bare : @World demo_types :=
  demo_world (demo_os [] [] NoFault) false.

(** The ownership change of the one workload directory is refused. *)
Definition demo_denied : @World demo_types :=
  demo_world (demo_os [demo_found] [demo_uuid_dir] NoFault) false.

(** The configuration file cannot be opened for writing. *)
Definition demo_readonly : @World demo_types :=
  demo_world (demo_os [demo_found] [] (OpenFails (SysError "read-only file system"))) false.

(** What a process may call before it installs a configuration. *)
Definition demo_calls : list call :=
  [CallSetDebugViaFlag true; CallGet; CallWriteToDisk (addr 0%nat);
   CallEnsureFilePermissions (addr 0%nat)].

(** The identifiers of the account are too large for [int]. *)
Definition demo_huge : user.User := demo_account "99999999999999999999" "998".

(** A loader whose defaults name the account, which expands nothing and
    whose parser reads the debug setting. *)
Definition demo_loader : @Loader demo_types :=
  {| zero_Docker := (tt : @DockerConfiguration demo_types);
     zero_SystemRest := (tt : @SystemRest demo_types);
     read_fault := fun _ => None;
     defaults_Set := fun c =>
       inr (set_System (set_identity "pterodactyl" 0 0 (System c)) c);
     os_ExpandEnv := fun b => b;
     yaml_Unmarshal := fun b c => inr (set_Debug (HasPrefix b "debug: true") c) |}.

(** A host with the accounts [db], on which lookups fail as [lf] says and
    whose release is [rel]. *)
Definition demo_host (db : list user.User) (lf : string -> option error)
    (rel : error + gmap string string) : OS :=
  {| accounts := db;
     lookup_fault := lf;
     command_effect := demo_command;
     os_release := rel;
     files := ∅;
     write_fault := fun _ => NoFault;
     dir_listing := fun _ => inr demo_entries;
     owners := ∅;
     chown_fault := fun _ => None;
     go_schedule := fun l => l |}.

Definition demo_alpine : @World demo_types :=
  demo_world (demo_host [] (fun _ => None) (inr {[ "ID" := "alpine" ]})) false.

Definition demo_lookup_broken : @World demo_types :=
  demo_world
    (demo_host [] (fun _ => Some (SysError "cannot read the account database"))
       (inr {[ "ID" := "debian" ]}))
    false.

(** A process whose configuration has no path. *)
Definition demo_pathless : @World demo_types :=
  {| heap := {[ 0%nat := set_path "" (demo_config "secret" true) ]};
     algos := [];
     _config := nil; _jwtAlgo := nil; _debugViaFlag := false;
     opsys := demo_os [demo_found] [] NoFault; trace := [] |}.

Definition demo_session : list call :=
  [CallSet (addr 0%nat); CallEnsurePterodactylUser (addr 0%nat);
   CallSet (addr 1%nat); CallWriteToDisk (addr 1%nat)].

(** * Properties *)

(** ** The pattern and the naming contract *)

Lemma append_empty_r (s : string) : s ++ "" = s.
Proof.
  induction s as [|c s IH]; [reflexivity|].
  change (String c (s ++ "") = String c s). now rewrite IH.
Qed.

Lemma byte_val_inj (a b : ascii) : byte_val a = byte_val b -> a = b.
Proof.
  unfold byte_val. intros E. apply N2Z.inj in E.
  rewrite <- (ascii_N_embedding a), <- (ascii_N_embedding b). now rewrite E.
Qed.

Lemma in_range_point (c x : ascii) : in_range c c x = true <-> x = c.
Proof.
  unfold in_range. rewrite andb_true_iff, !Z.leb_le. split.
  - intros [A B]. apply byte_val_inj. lia.
  - intros ->. lia.
Qed.

Lemma class_lit (c x : ascii) : class_matches (cls_lit c) x = true <-> x = c.
Proof.
  unfold class_matches, cls_lit. simpl. rewrite orb_false_r. apply in_range_point.
Qed.

Lemma class_hex (x : ascii) : class_matches cls_hex x = is_lower_hex x.
Proof.
  unfold class_matches, cls_hex, is_lower_hex. simpl.
  rewrite orb_false_r. apply orb_comm.
Qed.

Lemma class_variant (x : ascii) : class_matches cls_variant x = is_variant_nibble x.
Proof.
  unfold class_matches, cls_variant, is_variant_nibble. simpl.
  rewrite orb_false_r, !orb_assoc.
  assert (P : forall c, in_range c c x = Ascii.eqb x c).
  { intros c. apply eq_true_iff_eq. rewrite in_range_point. symmetry. apply Ascii.eqb_eq. }
  now rewrite !P.
Qed.

Lemma forallb_ext_string (p q : ascii -> bool) (s : string) :
  (forall c, p c = q c) -> string_forallb p s = string_forallb q s.
Proof. intros E. induction s as [|c s IH]; simpl; [reflexivity|]. now rewrite E, IH. Qed.

(** [match_rep] succeeds exactly when the text starts with [n] characters
    of the class, and returns what follows them. *)
Lemma match_rep_spec (cl : char_class) (n : nat) (s rest : string) :
  match_rep cl n s = Some rest <->
  exists a, s = a ++ rest /\ String.length a = n
            /\ string_forallb (class_matches cl) a = true.
Proof.
  revert s. induction n as [|n IH]; intros s; simpl.
  - split.
    + intros [= ->]. exists "". repeat split.
    + intros ([|c a] & -> & L & _); [reflexivity | discriminate].
  - destruct s as [|c s].
    + split; [discriminate|].
      intros ([|c a] & E & L & _); simpl in *; discriminate.
    + destruct (class_matches cl c) eqn:C.
      * rewrite IH. split.
        -- intros (a & -> & L & F). exists (String c a). simpl. rewrite C, F, L. auto.
        -- intros ([|c' a] & E & L & F); simpl in *; [discriminate|].
           injection E as -> ->. apply andb_true_iff in F as [_ F].
           exists a. repeat split; [lia | exact F].
      * split; [discriminate|].
        intros ([|c' a] & E & L & F); simpl in *; [discriminate|].
        injection E as -> ->. rewrite C in F. discriminate.
Qed.

Lemma match_rep_hex (n : nat) (s rest : string) :
  match_rep cls_hex n s = Some rest <-> exists a, s = a ++ rest /\ hex_group n a.
Proof.
  rewrite match_rep_spec. unfold hex_group.
  split; intros (a & E & L & F); exists a; repeat split; auto.
  - now rewrite <- (forallb_ext_string _ _ a class_hex).
  - now rewrite (forallb_ext_string _ _ a class_hex).
Qed.

Lemma match_rep_one (cl : char_class) (s rest : string) :
  match_rep cl 1 s = Some rest <-> exists c, s = String c rest /\ class_matches cl c = true.
Proof.
  simpl. destruct s as [|c s].
  - split; [discriminate | intros (c & E & _); discriminate].
  - destruct (class_matches cl c) eqn:C.
    + split.
      * intros [= ->]. now exists c.
      * intros (c' & [= -> ->] & _). reflexivity.
    + split; [discriminate|]. intros (c' & [= -> ->] & C'). congruence.
Qed.

(** The compiled pattern accepts exactly the canonical version-4 names. *)
Lemma uuid4_regex_spec (name : string) :
  MatchString uuid4_regex name = true <-> canonical_uuid4 name.
Proof.
  unfold canonical_uuid4. split.
  - unfold uuid4_regex, MatchString, rep, item_class, item_count.
    destruct (match_rep cls_hex 8 name) as [r1|] eqn:E1; [|discriminate].
    destruct (match_rep (cls_lit "-") 1 r1) as [r2|] eqn:E2; [|discriminate].
    destruct (match_rep cls_hex 4 r2) as [r3|] eqn:E3; [|discriminate].
    destruct (match_rep (cls_lit "-") 1 r3) as [r4|] eqn:E4; [|discriminate].
    destruct (match_rep (cls_lit "4") 1 r4) as [r5|] eqn:E5; [|discriminate].
    destruct (match_rep cls_hex 3 r5) as [r6|] eqn:E6; [|discriminate].
    destruct (match_rep (cls_lit "-") 1 r6) as [r7|] eqn:E7; [|discriminate].
    destruct (match_rep cls_variant 1 r7) as [r8|] eqn:E8; [|discriminate].
    destruct (match_rep cls_hex 3 r8) as [r9|] eqn:E9; [|discriminate].
    destruct (match_rep (cls_lit "-") 1 r9) as [r10|] eqn:E10; [|discriminate].
    destruct (match_rep cls_hex 12 r10) as [r11|] eqn:E11; [|discriminate].
    intros Z. apply String.eqb_eq in Z. subst r11.
    apply match_rep_hex in E1 as (g1 & -> & G1).
    apply match_rep_one in E2 as (c2 & -> & C2). apply class_lit in C2 as ->.
    apply match_rep_hex in E3 as (g2 & -> & G2).
    apply match_rep_one in E4 as (c4 & -> & C4). apply class_lit in C4 as ->.
    apply match_rep_one in E5 as (c5 & -> & C5). apply class_lit in C5 as ->.
    apply match_rep_hex in E6 as (g3 & -> & G3).
    apply match_rep_one in E7 as (c7 & -> & C7). apply class_lit in C7 as ->.
    apply match_rep_one in E8 as (v & -> & V). rewrite class_variant in V.
    apply match_rep_hex in E9 as (g4 & -> & G4).
    apply match_rep_one in E10 as (c10 & -> & C10). apply class_lit in C10 as ->.
    apply match_rep_hex in E11 as (g5 & -> & G5).
    exists g1, g2, g3, v, g4, g5.
    rewrite append_empty_r. repeat split; try assumption;
      try apply G1; try apply G2; try apply G3; try apply G4; try apply G5.
  - intros (g1 & g2 & g3 & v & g4 & g5 & -> & G1 & G2 & G3 & V & G4 & G5).
    unfold uuid4_regex, MatchString, rep, item_class, item_count.
    assert (HX : forall n a rest, hex_group n a -> match_rep cls_hex n (a ++ rest) = Some rest).
    { intros n a rest G. apply match_rep_hex. now exists a. }
    assert (LT : forall c rest, match_rep (cls_lit c) 1 (String c rest) = Some rest).
    { intros c rest. apply match_rep_one. exists c. split; [reflexivity | now apply class_lit]. }
    assert (AC : forall c a b, String c a ++ b = String c (a ++ b)) by reflexivity.
    assert (AE : forall b, "" ++ b = b) by reflexivity.
    assert (VT : forall rest, match_rep cls_variant 1 (String v rest) = Some rest).
    { intros rest. apply match_rep_one. exists v. split; [reflexivity | now rewrite class_variant]. }
    rewrite (HX _ _ _ G1), AC, AE, LT.
    rewrite (HX _ _ _ G2), AC, AE, LT.
    rewrite AC, LT.
    rewrite (HX _ _ _ G3), AC, AE, LT.
    rewrite AC, VT.
    rewrite (HX _ _ _ G4), AC, AE, LT.
    rewrite <- (append_empty_r g5) at 1.
    rewrite (HX _ _ _ G5). reflexivity.
Qed.

(** ** [strconv.Atoi] *)

Lemma ParseUint_loop_result (s : string) (n : Z) :
  match ParseUint_loop s n with
  | (v, Some ErrSyntax) => v = 0
  | (v, Some ErrRange) => v = maxUint64
  | (_, None) => string_forallb is_digit s = true
  end.
Proof.
  revert n. induction s as [|c s IH]; intros n; simpl; [reflexivity|].
  destruct (is_digit c); simpl; [|reflexivity].
  destruct (maxUint64 / 10 + 1 <=? n); [reflexivity|].
  destruct (_ || _); [reflexivity|]. apply IH.
Qed.

Lemma ParseUint_loop_nonneg (s : string) (n v : Z) :
  0 <= n -> ParseUint_loop s n = (v, None) -> 0 <= v.
Proof.
  revert n. induction s as [|d s IH]; intros n Hn; simpl.
  - intros [= <-]. exact Hn.
  - destruct (is_digit d); [|discriminate].
    destruct (maxUint64 / 10 + 1 <=? n); [discriminate|].
    destruct (_ || _); [discriminate|].
    apply IH. apply Z.mod_pos_bound. reflexivity.
Qed.

Lemma ParseUint_result (s : string) :
  match ParseUint s with
  | (v, Some ErrSyntax) => v = 0
  | (v, Some ErrRange) => v = maxUint64
  | (_, None) => unsigned_literal s = true
  end.
Proof.
  unfold ParseUint, unsigned_literal. destruct s as [|c s]; [reflexivity|].
  pose proof (ParseUint_loop_result (String c s) 0) as P.
  destruct (ParseUint_loop (String c s) 0) as [v [[]|]]; auto.
Qed.

(** What [Atoi] returns with each error, and what it accepts. *)
Lemma Atoi_result (s : string) :
  match Atoi s with
  | (v, Some ErrSyntax) => v = 0
  | (v, Some ErrRange) => v = maxInt \/ v = minInt
  | (v, None) => int_literal s = true /\ minInt <= v <= maxInt
  end.
Proof.
  unfold Atoi, ParseInt, int_literal. destruct s as [|c s]; [reflexivity|].
  set (body := if Ascii.eqb c "+" || Ascii.eqb c "-" then s else String c s).
  pose proof (ParseUint_result body) as P.
  destruct (ParseUint body) as [un [[]|]] eqn:PU; [reflexivity| |].
  - subst un. destruct (Ascii.eqb c "-"); simpl.
    + right. reflexivity.
    + left. reflexivity.
  - assert (U : 0 <= un).
    { unfold ParseUint in PU. destruct body; [discriminate|].
      eapply (ParseUint_loop_nonneg _ 0); [lia | exact PU]. }
    unfold minInt, maxInt, intSize in *.
    destruct (Ascii.eqb c "-") eqn:N; simpl.
    + rewrite orb_true_r.
      destruct (2 ^ (64 - 1) <? un) eqn:C; simpl; [right; reflexivity|].
      apply Z.ltb_ge in C. split; [|lia].
      subst body. rewrite orb_true_r in P. exact P.
    + rewrite orb_false_r.
      destruct (2 ^ (64 - 1) <=? un) eqn:C; simpl; [left; reflexivity|].
      apply Z.leb_gt in C. split; [|lia].
      subst body. rewrite orb_false_r in P. destruct (Ascii.eqb c "+"); exact P.
Qed.

Lemma Atoi_syntax (s : string) : snd (Atoi s) = Some ErrSyntax -> fst (Atoi s) = 0.
Proof.
  pose proof (Atoi_result s) as P. destruct (Atoi s) as [v [[]|]]; simpl; auto; discriminate.
Qed.

Lemma Atoi_range (s : string) :
  snd (Atoi s) = Some ErrRange -> fst (Atoi s) = maxInt \/ fst (Atoi s) = minInt.
Proof.
  pose proof (Atoi_result s) as P. destruct (Atoi s) as [v [[]|]]; simpl; auto; discriminate.
Qed.

(** A string that is not a decimal literal is refused. *)
Lemma Atoi_refuses (s : string) : int_literal s = false -> snd (Atoi s) <> None.
Proof.
  pose proof (Atoi_result s) as P. destruct (Atoi s) as [v [[]|]]; simpl; try discriminate.
  destruct P as [L _]. congruence.
Qed.

(** ** The operations, equation by equation *)

Section Properties.
Context `{Libraries}.
Local Open Scope list_scope.

(** Unfold the plumbing of [M]. *)
Ltac plumb :=
  unfold bind, ret, load, store, the_os, set_os, tell, debug_via_flag,
    read_config, write_config, write_jwtAlgo, jwt_NewHS256, user_Lookup,
    osrelease_Read, ioutil_ReadDir, zap_Warnw, GetPath in *; simpl in *.

Lemma same_but_files_refl (w : World) : same_but_files w w.
Proof. repeat split. Qed.

Lemma put_contents_eq (name : string) (ss : list string) (w : World) :
  put_contents name ss w = Some (tt, written name ss w).
Proof.
  revert w. induction ss as [|s ss IH]; intros w; simpl; [reflexivity|].
  plumb. apply IH.
Qed.

Lemma written_frame (name : string) (ss : list string) (w : World) :
  same_but_files w (written name ss w).
Proof.
  revert w. induction ss as [|s ss IH]; intros w; simpl.
  - apply same_but_files_refl.
  - specialize (IH (emit (EvFile name s)
      (with_opsys (with_files (<[name := s]> (files (opsys w))) (opsys w)) w))).
    unfold same_but_files in *. simpl in IH. exact IH.
Qed.

Lemma written_trace (name : string) (ss : list string) (w : World) :
  trace (written name ss w) = trace w ++ List.map (EvFile name) ss.
Proof.
  revert w. induction ss as [|s ss IH]; intros w; simpl.
  - now rewrite app_nil_r.
  - rewrite IH. simpl. now rewrite <- app_assoc.
Qed.



Lemma ioutil_WriteFile_eq (name data : string) (perm : Z) (w : World) :
  let r := WriteFile_contents data (write_fault (opsys w) name) in
  ioutil_WriteFile name data perm w = Some (snd r, written name (fst r) w).
Proof.
  unfold ioutil_WriteFile. plumb. now rewrite put_contents_eq.
Qed.

(** [WriteToDisk] on a configuration object. *)
Lemma WriteToDisk_eq (c : ptr) (cfg : Configuration) (w : World) :
  deref c w = Some cfg ->
  WriteToDisk c w =
    if String.eqb (path cfg) "" then Some (Some (errorString no_path_msg), w)
    else match yaml_Marshal (persisted (_debugViaFlag w) cfg) with
         | inl err => Some (Some err, w)
         | inr doc => ioutil_WriteFile (path cfg) doc 420 w
         end.
Proof.
  intros D. unfold WriteToDisk, persisted. plumb. rewrite D. simpl. rewrite D. simpl.
  destruct (String.eqb (path cfg) ""); [reflexivity|].
  destruct (yaml_Marshal _); [reflexivity|]. plumb. now rewrite D.
Qed.

(** [WriteToDisk] returns, and changes nothing but the files and the
    trace. *)
Lemma WriteToDisk_frame (c : ptr) (cfg : Configuration) (w : World) :
  deref c w = Some cfg ->
  exists r w', WriteToDisk c w = Some (r, w') /\ same_but_files w w'.
Proof.
  intros D. rewrite (WriteToDisk_eq _ _ _ D).
  destruct (String.eqb (path cfg) "").
  { eexists _, _. split; [reflexivity | apply same_but_files_refl]. }
  destruct (yaml_Marshal _).
  { eexists _, _. split; [reflexivity | apply same_but_files_refl]. }
  rewrite ioutil_WriteFile_eq. eexists _, _. split; [reflexivity | apply written_frame].
Qed.

(** [setSystemUser] updates the object in place and persists it. *)
Lemma setSystemUser_eq (c : ptr) (u : user.User) (cfg : Configuration) (w : World) :
  deref c w = Some cfg ->
  setSystemUser c u w = WriteToDisk c (updated c (record_identity u cfg) w).
Proof.
  intros D. unfold setSystemUser. plumb. rewrite D.
  destruct c as [|l]; [discriminate | reflexivity].
Qed.

Lemma deref_updated (c : ptr) (cfg cfg' : Configuration) (w : World) :
  deref c w = Some cfg -> deref c (updated c cfg' w) = Some cfg'.
Proof.
  destruct c as [|l]; [discriminate|]. intros _. simpl. apply lookup_insert_eq.
Qed.

Lemma events_since_app (w w' : World) (evs : list event) :
  trace w' = trace w ++ evs -> events_since w w' = evs.
Proof. unfold events_since. intros ->. apply drop_app_length. Qed.






(** ** The persistence writer *)

(** C8: [WriteToDisk] works on a copy.  On every configuration object it
    returns, and it leaves the heap as it found it: the object keeps its
    [Debug] field and every other field, whatever the flag, and the
    package variables are unchanged. *)
Theorem WriteToDisk_leaves_snapshot (c : ptr) (cfg : Configuration) (w : World) :
  deref c w = Some cfg ->
  exists r w',
    WriteToDisk c w = Some (r, w')
    /\ heap w' = heap w
    /\ deref c w' = Some cfg
    /\ _config w' = _config w /\ _jwtAlgo w' = _jwtAlgo w
    /\ _debugViaFlag w' = _debugViaFlag w.
Proof.
  intros D. destruct (WriteToDisk_frame c cfg w D) as (r & w' & E & F).
  exists r, w'. destruct F as (Hh & _ & Hc & Hj & Hd & _).
  repeat split; try assumption.
  destruct c as [|l]; [discriminate|]. simpl in *. now rewrite Hh.
Qed.



(** ** The store *)


(** *** What the calls other than [Set] leave alone *)

#[local] Instance same_store_refl : Reflexive same_store.
Proof. intros w. split; reflexivity. Qed.

#[local] Instance same_store_trans : Transitive same_store.
Proof. intros a b c [A1 A2] [B1 B2]. split; congruence. Qed.

Lemma preserves_ret {A} (R : World -> World -> Prop) (a : A) :
  Reflexive R -> preserves R (ret a).
Proof. intros Rf w a' w' [= <- <-]. apply Rf. Qed.

Lemma preserves_bind {A B} (R : World -> World -> Prop) (m : M A) (k : A -> M B) :
  Transitive R -> preserves R m -> (forall a, preserves R (k a)) ->
  preserves R (bind m k).
Proof.
  intros Tr Pm Pk w b w' E. unfold bind in E.
  destruct (m w) as [[a w1]|] eqn:Em; [|discriminate].
  eapply Tr; [eapply Pm, Em | eapply Pk, E].
Qed.

Lemma keep_load (c : ptr) : preserves same_store (load c).
Proof. intros w a w' E. unfold load in E. destruct (deref c w); inversion E. reflexivity. Qed.

Lemma keep_store (c : ptr) (cfg : Configuration) : preserves same_store (store c cfg).
Proof. intros w a w' E. unfold store in E. destruct c; inversion E. split; reflexivity. Qed.

Lemma keep_the_os : preserves same_store the_os.
Proof. intros w a w' [= <- <-]. reflexivity. Qed.

Lemma keep_set_os (o : OS) : preserves same_store (set_os o).
Proof. intros w a w' [= <- <-]. split; reflexivity. Qed.

Lemma keep_tell (e : event) : preserves same_store (tell e).
Proof. intros w a w' [= <- <-]. split; reflexivity. Qed.

Lemma keep_flag : preserves same_store debug_via_flag.
Proof. intros w a w' [= <- <-]. reflexivity. Qed.

Lemma keep_SetDebugViaFlag (d : bool) : preserves same_store (SetDebugViaFlag d).
Proof. intros w a w' [= <- <-]. split; reflexivity. Qed.

Lemma keep_Get : preserves same_store Get.
Proof. intros w a w' [= <- <-]. reflexivity. Qed.

Lemma keep_GetJwtAlgorithm : preserves same_store GetJwtAlgorithm.
Proof. intros w a w' [= <- <-]. reflexivity. Qed.

Create HintDb keep discriminated.
#[local] Hint Resolve keep_load keep_store keep_the_os keep_set_os keep_tell
  keep_flag keep_SetDebugViaFlag keep_Get keep_GetJwtAlgorithm : keep.

(** Go through a computation built from the plumbing. *)
Ltac keep :=
  repeat first
    [ apply preserves_ret; typeclasses eauto
    | apply preserves_bind; [typeclasses eauto | | intros ?]
    | solve [auto with keep]
    | match goal with
      | |- preserves _ (match ?x with _ => _ end) => destruct x
      | |- preserves _ (if ?x then _ else _) => destruct x
      end
    | progress cbv zeta ].

Lemma keep_put_contents (name : string) (ss : list string) :
  preserves same_store (put_contents name ss).
Proof. induction ss as [|s ss IH]; simpl; keep. Qed.
#[local] Hint Resolve keep_put_contents : keep.

Lemma keep_WriteToDisk (c : ptr) : preserves same_store (WriteToDisk c).
Proof. unfold WriteToDisk, GetPath, ioutil_WriteFile. keep. Qed.
#[local] Hint Resolve keep_WriteToDisk : keep.

Lemma keep_setSystemUser (c : ptr) (u : user.User) :
  preserves same_store (setSystemUser c u).
Proof. unfold setSystemUser. keep. Qed.
#[local] Hint Resolve keep_setSystemUser : keep.

Lemma keep_exec_Output (argv : list string) : preserves same_store (exec_Output argv).
Proof. unfold exec_Output. keep. Qed.
#[local] Hint Resolve keep_exec_Output : keep.

Lemma keep_EnsurePterodactylUser (c : ptr) :
  preserves same_store (EnsurePterodactylUser c).
Proof.
  unfold EnsurePterodactylUser, user_Lookup, getSystemName, osrelease_Read. keep.
Qed.

Lemma keep_run_all (c : ptr) (su : user.User) (fs : list os.FileInfo) :
  preserves same_store (run_all c su fs).
Proof.
  induction fs as [|f fs IH]; simpl; keep.
  unfold chown_entry, os_Chown, zap_Warnw. keep.
Qed.
#[local] Hint Resolve keep_run_all : keep.

Lemma keep_EnsureFilePermissions (c : ptr) :
  preserves same_store (EnsureFilePermissions c).
Proof. unfold EnsureFilePermissions, ioutil_ReadDir, user_Lookup. keep. Qed.

Lemma keep_run_call (k : call) : is_Set k = false -> preserves same_store (run_call k).
Proof.
  pose proof keep_EnsurePterodactylUser. pose proof keep_EnsureFilePermissions.
  destruct k; simpl; [discriminate|..]; intros _; unfold GetPath; keep.
Qed.

Lemma keep_run_calls (ks : list call) :
  forallb (fun k => negb (is_Set k)) ks = true -> preserves same_store (run_calls ks).
Proof.
  induction ks as [|k ks IH]; simpl; intros F; [keep|].
  apply andb_true_iff in F as [K F]. apply negb_true_iff in K.
  apply preserves_bind; [typeclasses eauto | now apply keep_run_call | intros _; now apply IH].
Qed.

(** C9: as long as no [Set] has been called, whatever else the process
    has called, [Get] returns the nil pointer and so does
    [GetJwtAlgorithm]: the caller is given no configuration and no key. *)
Theorem Get_before_Set (ks : list call) (w w' : World) :
  process_start w ->
  forallb (fun k => negb (is_Set k)) ks = true ->
  run_calls ks w = Some (tt, w') ->
  Get w' = Some (nil, w') /\ GetJwtAlgorithm w' = Some (nil, w')
  /\ deref nil w' = None.
Proof.
  intros (C & J & _) F E.
  destruct (keep_run_calls ks F w tt w' E) as [KC KJ].
  unfold Get, GetJwtAlgorithm. rewrite KC, KJ, C, J. repeat split.
Qed.

(** ** The identity provisioner *)

Lemma EnsurePterodactylUser_resolve (c : ptr) (w : World) :
  EnsurePterodactylUser c w =
    match resolve_account c w with
    | Some (inr u, w1) =>
        match setSystemUser c u w1 with
        | Some (e, w2) => Some ((Some u, e), w2)
        | None => None
        end
    | Some (inl err, w1) => Some ((None, Some err), w1)
    | None => None
    end.
Proof.
  unfold EnsurePterodactylUser, resolve_account, getSystemName. plumb.
  repeat match goal with
         | |- context [match ?x with _ => _ end] =>
             lazymatch x with
             | setSystemUser _ _ _ => fail
             | _ => destruct x eqn:?; simpl; try reflexivity
             end
         end.
Qed.

Lemma resolve_account_first (c : ptr) (cfg : Configuration) (u : user.User) (w : World) :
  deref c w = Some cfg ->
  lookup_account (Username (System cfg)) (opsys w) = inr u ->
  resolve_account c w = Some (inr u, w).
Proof.
  intros D L. unfold resolve_account. plumb. rewrite D. simpl. now rewrite L.
Qed.

(** When an account is resolved, the heap, the flag and the files are as
    before, and the account is in the database under the configured
    name. *)
Lemma resolve_account_found (c : ptr) (cfg : Configuration) (u : user.User)
      (w w1 : World) :
  deref c w = Some cfg ->
  resolve_account c w = Some (inr u, w1) ->
  heap w1 = heap w /\ _debugViaFlag w1 = _debugViaFlag w
  /\ files (opsys w1) = files (opsys w)
  /\ write_fault (opsys w1) = write_fault (opsys w)
  /\ lookup_account (Username (System cfg)) (opsys w1) = inr u.
Proof.
  intros D E. destruct c as [|l]; [discriminate|]. simpl in D.
  unfold resolve_account, getSystemName, exec_Output in E. plumb.
  rewrite D in E. simpl in E.
  destruct (lookup_account (Username (System cfg)) (opsys w)) as [err|u0] eqn:L.
  2: { inversion E; subst. repeat split; assumption. }
  destruct (negb (is_UnknownUserError err)); [discriminate|].
  destruct (os_release (opsys w)) as [e|rel]; simpl in E; [discriminate|].
  rewrite D in E. simpl in E.
  destruct (HasPrefix _ _); simpl in E;
    repeat match type of E with
           | context [match snd ?x with _ => _ end] =>
               destruct (snd x); simpl in E; [discriminate|]
           | context [heap w !! l] => rewrite D in E; simpl in E
           end;
    inversion E as [[L1 W1]]; subst w1; simpl; repeat split; exact L1.
Qed.

Lemma lookup_account_name (name : string) (o : OS) (u : user.User) :
  lookup_account name o = inr u -> user.Username u = name.
Proof.
  unfold lookup_account. destruct (lookup_fault o name); [discriminate|].
  destruct (List.find _ _) as [u'|] eqn:F; [|discriminate].
  intros [= <-]. apply List.find_some in F as [_ F]. now apply String.eqb_eq.
Qed.

Lemma lookup_account_frame (name : string) (o o' : OS) :
  accounts o' = accounts o -> lookup_fault o' = lookup_fault o ->
  lookup_account name o' = lookup_account name o.
Proof. unfold lookup_account. now intros -> ->. Qed.

Lemma record_identity_twice (u : user.User) (cfg : Configuration) :
  record_identity u (record_identity u cfg) = record_identity u cfg.
Proof. reflexivity. Qed.

Lemma commands_written (name : string) (ss : list string) (w : World) :
  commands (trace (written name ss w)) = commands (trace w).
Proof.
  rewrite written_trace. unfold commands. rewrite List.filter_app.
  assert (E : List.filter is_exec (List.map (EvFile name) ss) = []).
  { induction ss as [|s ss IH]; [reflexivity | exact IH]. }
  rewrite E. apply app_nil_r.
Qed.

Lemma WriteToDisk_commands (c : ptr) (cfg : Configuration) (w : World) (r : option error)
      (w' : World) :
  deref c w = Some cfg -> WriteToDisk c w = Some (r, w') ->
  commands (trace w') = commands (trace w).
Proof.
  intros D. rewrite (WriteToDisk_eq _ _ _ D).
  destruct (String.eqb (path cfg) ""); [now intros [= _ <-]|].
  destruct (yaml_Marshal _); [now intros [= _ <-]|].
  rewrite ioutil_WriteFile_eq. intros [= _ <-]. apply commands_written.
Qed.

(** [setSystemUser] on a configuration object: it returns what
    [WriteToDisk] returns on the updated object, which stays updated. *)
Lemma setSystemUser_spec (c : ptr) (u : user.User) (cfg : Configuration) (w : World) :
  deref c w = Some cfg ->
  exists e w',
    setSystemUser c u w = Some (e, w')
    /\ WriteToDisk c (updated c (record_identity u cfg) w) = Some (e, w')
    /\ deref c w' = Some (record_identity u cfg)
    /\ commands (trace w') = commands (trace w)
    /\ accounts (opsys w') = accounts (opsys w)
    /\ lookup_fault (opsys w') = lookup_fault (opsys w).
Proof.
  intros D. rewrite (setSystemUser_eq _ _ _ _ D).
  pose proof (deref_updated c cfg (record_identity u cfg) w D) as D'.
  destruct (WriteToDisk_frame _ _ _ D') as (e & w' & E & F).
  exists e, w'. rewrite E. split; [reflexivity|]. split; [reflexivity|].
  pose proof (WriteToDisk_commands _ _ _ _ _ D' E) as C.
  destruct F as (Hh & _ & _ & _ & _ & Ha & Hl & _).
  destruct c as [|l]; [discriminate|]. simpl in *.
  repeat split; try assumption. now rewrite Hh.
Qed.

(** C10, amended: [setSystemUser] drops the errors of [Atoi] and records
    the values it returns, 0 after a syntax error and the nearest bound
    of [int] after a range error; it then persists the object, and the
    error it returns is the one of [WriteToDisk]. *)
Theorem setSystemUser_records (c : ptr) (u : user.User) (cfg : Configuration)
        (w : World) :
  deref c w = Some cfg ->
  exists e w' cfg',
    setSystemUser c u w = Some (e, w')
    /\ WriteToDisk c (updated c (record_identity u cfg) w) = Some (e, w')
    /\ deref c w' = Some cfg'
    /\ Username (System cfg') = user.Username u
    /\ Uid (User (System cfg')) = fst (Atoi (user.Uid u))
    /\ Gid (User (System cfg')) = fst (Atoi (user.Gid u))
    /\ (snd (Atoi (user.Uid u)) = Some ErrSyntax -> Uid (User (System cfg')) = 0)
    /\ (snd (Atoi (user.Gid u)) = Some ErrSyntax -> Gid (User (System cfg')) = 0)
    /\ (snd (Atoi (user.Uid u)) = Some ErrRange ->
          Uid (User (System cfg')) = maxInt \/ Uid (User (System cfg')) = minInt)
    /\ (snd (Atoi (user.Gid u)) = Some ErrRange ->
          Gid (User (System cfg')) = maxInt \/ Gid (User (System cfg')) = minInt).
Proof.
  intros D. destruct (setSystemUser_spec c u cfg w D) as (e & w' & E & P & D' & _).
  exists e, w', (record_identity u cfg). simpl.
  repeat split; try assumption; try apply Atoi_syntax; apply Atoi_range.
Qed.

(** C7: once an account is resolved, by the first lookup or by the
    creation, a failure to persist the updated object is the error of the
    whole call, although the object is updated and the account is in the
    database. *)
Theorem persist_failure_fails_call (c : ptr) (cfg : Configuration) (u : user.User)
        (w w1 w2 : World) (e : error) :
  deref c w = Some cfg ->
  resolve_account c w = Some (inr u, w1) ->
  WriteToDisk c (updated c (record_identity u cfg) w1) = Some (Some e, w2) ->
  EnsurePterodactylUser c w = Some ((Some u, Some e), w2)
  /\ deref c w2 = Some (record_identity u cfg)
  /\ lookup_account (user.Username u) (opsys w2) = inr u.
Proof.
  intros D R P.
  destruct (resolve_account_found _ _ _ _ _ D R) as (Hh & _ & _ & _ & L).
  assert (D1 : deref c w1 = Some cfg).
  { destruct c as [|l]; [discriminate|]. simpl in *. now rewrite Hh. }
  destruct (setSystemUser_spec c u cfg w1 D1) as (e' & w' & E & P' & D' & _ & Ha & Hl).
  rewrite P in P'. injection P' as <- <-.
  rewrite EnsurePterodactylUser_resolve, R, E. repeat split; [exact D'|].
  rewrite (lookup_account_frame _ _ _ Ha Hl).
  now rewrite (lookup_account_name _ _ _ L).
Qed.

(** C5: when the lookup of the configured name succeeds,
    [EnsurePterodactylUser] returns that account and runs no command;
    and after any call that returned an account, found or created, the
    recorded name resolves to it, so the next call returns it again,
    records the same identifiers and runs no command. *)
Theorem provisioning_idempotent (c : ptr) (cfg : Configuration) (w : World) :
  deref c w = Some cfg ->
  (forall u, lookup_account (Username (System cfg)) (opsys w) = inr u ->
             found_without_creating c u cfg w)
  /\ (forall u e w1,
        EnsurePterodactylUser c w = Some ((Some u, e), w1) ->
        deref c w1 = Some (record_identity u cfg)
        /\ lookup_account (Username (System (record_identity u cfg))) (opsys w1) = inr u
        /\ found_without_creating c u (record_identity u cfg) w1
        /\ record_identity u (record_identity u cfg) = record_identity u cfg).
Proof.
  assert (first : forall cfg0 w0 u,
            deref c w0 = Some cfg0 ->
            lookup_account (Username (System cfg0)) (opsys w0) = inr u ->
            found_without_creating c u cfg0 w0).
  { intros cfg0 w0 u D L. unfold found_without_creating.
    destruct (setSystemUser_spec c u cfg0 w0 D) as (e & w' & E & _ & D' & C & A & _).
    exists e, w'. rewrite EnsurePterodactylUser_resolve.
    rewrite (resolve_account_first _ _ _ _ D L), E. repeat split; assumption. }
  intros D. split; [intros u L; now apply first|].
  intros u e w1 E. rewrite EnsurePterodactylUser_resolve in E.
  destruct (resolve_account c w) as [[[err|u'] wm]|] eqn:R; try discriminate.
  destruct (resolve_account_found _ _ _ _ _ D R) as (Hh & _ & _ & _ & L).
  assert (Dm : deref c wm = Some cfg).
  { destruct c as [|l]; [discriminate|]. simpl in *. now rewrite Hh. }
  destruct (setSystemUser_spec c u' cfg wm Dm) as (e' & w' & E' & _ & D' & _ & Ha & Hl).
  rewrite E' in E. injection E as -> -> ->.
  assert (L1 : lookup_account (Username (System (record_identity u cfg))) (opsys w1) = inr u).
  { simpl. rewrite (lookup_account_frame _ _ _ Ha Hl).
    now rewrite (lookup_account_name _ _ _ L). }
  repeat split; [exact D' | exact L1 | now apply first].
Qed.

(** ** The permission reconciler *)

Lemma qualifies_spec (f : os.FileInfo) :
  qualifies f = true <-> os.IsDir f = true /\ canonical_uuid4 (os.Name f).
Proof. unfold qualifies. now rewrite andb_true_iff, uuid4_regex_spec. Qed.

Lemma Permutation_filterb {A} (p : A -> bool) (l l' : list A) :
  Permutation l l' -> Permutation (List.filter p l) (List.filter p l').
Proof.
  induction 1 as [|x l l' _ IH|x y l|l l1 l2 _ IH1 _ IH2]; simpl.
  - constructor.
  - destruct (p x); [now constructor | exact IH].
  - destruct (p x), (p y); try reflexivity. constructor.
  - now transitivity (List.filter p l1).
Qed.

(** One goroutine. *)
Lemma chown_entry_spec (c : ptr) (cfg : Configuration) (su : user.User)
      (f : os.FileInfo) (w : World) :
  deref c w = Some cfg ->
  exists w',
    chown_entry c su f w = Some (tt, w')
    /\ trace w' = trace w ++ entry_events cfg su (chown_fault (opsys w)) f
    /\ heap w' = heap w
    /\ chown_fault (opsys w') = chown_fault (opsys w)
    /\ (qualifies f = false -> w' = w).
Proof.
  intros D. unfold chown_entry, entry_events, os_Chown, chown_of.
  rewrite <- negb_andb. fold (qualifies f).
  destruct (qualifies f); simpl.
  2: { exists w. plumb. rewrite app_nil_r. repeat split. }
  destruct c as [|l]; [discriminate|]. plumb. rewrite D. simpl.
  destruct (chown_fault (opsys w) _) as [err|]; simpl;
    eexists; (split; [reflexivity|]); simpl;
    rewrite <- ?app_assoc; repeat split; discriminate.
Qed.

(** All of them, in the order [fs]. *)
Lemma run_all_spec (c : ptr) (cfg : Configuration) (su : user.User)
      (fs : list os.FileInfo) (w : World) :
  deref c w = Some cfg ->
  exists w',
    run_all c su fs w = Some (tt, w')
    /\ trace w' = trace w ++ flat_map (entry_events cfg su (chown_fault (opsys w))) fs
    /\ heap w' = heap w.
Proof.
  revert w. induction fs as [|f fs IH]; intros w D; simpl.
  - exists w. rewrite app_nil_r. repeat split.
  - destruct (chown_entry_spec c cfg su f w D) as (w1 & E & T & Hh & Hf & _).
    assert (D1 : deref c w1 = Some cfg).
    { destruct c as [|l]; [discriminate|]. simpl in *. now rewrite Hh. }
    destruct (IH w1 D1) as (w' & E' & T' & Hh').
    exists w'. unfold bind. rewrite E, E'. split; [reflexivity|].
    rewrite T', T, Hf, <- app_assoc. split; [reflexivity | congruence].
Qed.

Lemma chowns_entries (cfg : Configuration) (su : user.User)
      (fault : string -> option error) (fs : list os.FileInfo) :
  chowns (flat_map (entry_events cfg su fault) fs)
  = List.map (chown_of cfg su) (List.filter qualifies fs).
Proof.
  unfold chowns. induction fs as [|f fs IH]; simpl; [reflexivity|].
  rewrite List.filter_app, IH. unfold entry_events.
  destruct (qualifies f); simpl; [|reflexivity].
  destruct (fault _); reflexivity.
Qed.

(** [EnsureFilePermissions] when the feature is on and both the listing
    and the lookup succeed. *)
Lemma EnsureFilePermissions_spec (c : ptr) (cfg : Configuration)
      (entries : list os.FileInfo) (su : user.User) (w : World) :
  deref c w = Some cfg ->
  SetPermissionsOnBoot (System cfg) = true ->
  dir_listing (opsys w) (Data (System cfg)) = inr entries ->
  lookup_account (Username (System cfg)) (opsys w) = inr su ->
  exists w',
    EnsureFilePermissions c w = Some (None, w')
    /\ heap w' = heap w
    /\ events_since w w'
       = flat_map (entry_events cfg su (chown_fault (opsys w)))
           (go_schedule (opsys w) entries).
Proof.
  intros D S L U.
  destruct (run_all_spec c cfg su (go_schedule (opsys w) entries) w D)
    as (w' & E & T & Hh).
  exists w'. unfold EnsureFilePermissions. plumb.
  rewrite D. simpl. rewrite S. simpl. rewrite D. simpl. rewrite L. simpl.
  rewrite D. simpl. rewrite U. simpl. rewrite E.
  split; [reflexivity|]. split; [exact Hh | now apply events_since_app].
Qed.

(** C3: with the feature on, the listing read and the account found, the
    ownership changes attempted are those of the entries that are
    directories with a canonical version-4 name, one each, with the
    identifiers of the account; the goroutine of any other entry leaves
    the world as it is. *)
Theorem reconciler_touches_uuid_dirs (c : ptr) (cfg : Configuration)
        (entries : list os.FileInfo) (su : user.User) (w : World) :
  deref c w = Some cfg ->
  SetPermissionsOnBoot (System cfg) = true ->
  dir_listing (opsys w) (Data (System cfg)) = inr entries ->
  lookup_account (Username (System cfg)) (opsys w) = inr su ->
  Permutation (go_schedule (opsys w) entries) entries ->
  exists w',
    EnsureFilePermissions c w = Some (None, w')
    /\ Permutation (chowns (events_since w w'))
         (List.map (chown_of cfg su) (List.filter qualifies entries))
    /\ (forall f, qualifies f = true <->
                  os.IsDir f = true /\ canonical_uuid4 (os.Name f))
    /\ (forall f, In f entries ->
          os.IsDir f = true /\ canonical_uuid4 (os.Name f) ->
          In (chown_of cfg su f) (events_since w w'))
    /\ (forall e, In e (chowns (events_since w w')) ->
          exists f, In f entries /\ os.IsDir f = true
                    /\ canonical_uuid4 (os.Name f) /\ e = chown_of cfg su f)
    /\ (forall f w0, deref c w0 = Some cfg ->
          ~ (os.IsDir f = true /\ canonical_uuid4 (os.Name f)) ->
          chown_entry c su f w0 = Some (tt, w0)).
Proof.
  intros D S L U P.
  destruct (EnsureFilePermissions_spec c cfg entries su w D S L U) as (w' & E & _ & T).
  exists w'. split; [exact E|].
  assert (PC : Permutation (chowns (events_since w w'))
                 (List.map (chown_of cfg su) (List.filter qualifies entries))).
  { rewrite T, chowns_entries. apply Permutation_map, Permutation_filterb, P. }
  split; [exact PC|]. split; [exact qualifies_spec|]. split; [|split].
  - intros f I Q. apply qualifies_spec in Q.
    assert (IC : In (chown_of cfg su f) (chowns (events_since w w'))).
    { eapply Permutation_in; [symmetry; exact PC|].
      apply in_map. apply List.filter_In. now split. }
    unfold chowns in IC. now apply List.filter_In in IC.
  - intros e I. eapply Permutation_in in I; [|exact PC].
    apply in_map_iff in I as (f & <- & I). apply List.filter_In in I as [I Q].
    apply qualifies_spec in Q as [Q1 Q2]. now exists f.
  - intros f w0 D0 N.
    destruct (chown_entry_spec c cfg su f w0 D0) as (w1 & E1 & _ & _ & _ & K).
    rewrite E1. rewrite K; [reflexivity|].
    destruct (qualifies f) eqn:Q; [|reflexivity].
    exfalso. apply N. now apply qualifies_spec.
Qed.

(** C4, amended: with the feature on, once the listing and the lookup
    of the account have both succeeded the call returns nil, however many
    ownership changes are refused; each refusal leaves a warning naming
    the directory and the cause, and the call does nothing but those
    changes and warnings. *)
Theorem reconciler_tolerates_failures (c : ptr) (cfg : Configuration)
        (entries : list os.FileInfo) (su : user.User) (w : World) :
  deref c w = Some cfg ->
  SetPermissionsOnBoot (System cfg) = true ->
  dir_listing (opsys w) (Data (System cfg)) = inr entries ->
  lookup_account (Username (System cfg)) (opsys w) = inr su ->
  Permutation (go_schedule (opsys w) entries) entries ->
  exists w',
    EnsureFilePermissions c w = Some (None, w')
    /\ heap w' = heap w
    /\ (forall f err, In f entries -> qualifies f = true ->
          chown_fault (opsys w) (path_Join (Data (System cfg)) (os.Name f)) = Some err ->
          In (EvWarn chown_warning (os.Name f) err) (events_since w w'))
    /\ (forall e, In e (events_since w w') ->
          exists f, In f entries /\ qualifies f = true
                    /\ (e = chown_of cfg su f
                        \/ exists err,
                             chown_fault (opsys w)
                               (path_Join (Data (System cfg)) (os.Name f)) = Some err
                             /\ e = EvWarn chown_warning (os.Name f) err)).
Proof.
  intros D S L U P.
  destruct (EnsureFilePermissions_spec c cfg entries su w D S L U) as (w' & E & Hh & T).
  exists w'. split; [exact E|]. split; [exact Hh|]. rewrite T. split.
  - intros f err I Q F. apply in_flat_map. exists f. split.
    + eapply Permutation_in; [symmetry; exact P | exact I].
    + unfold entry_events. rewrite Q, F. right. now left.
  - intros e I. apply in_flat_map in I as (f & I & J).
    exists f. split; [eapply Permutation_in; [exact P | exact I]|].
    unfold entry_events in J. destruct (qualifies f); [|destruct J].
    split; [reflexivity|]. destruct J as [<-|J]; [now left|].
    destruct (chown_fault _ _) as [err|] eqn:F; [|destruct J].
    destruct J as [<-|[]]. right. now exists err.
Qed.

End Properties.

(** * Further properties of the package *)

Section Further.
Context `{Libraries}.
Local Open Scope list_scope.

Ltac plumb :=
  unfold bind, ret, load, store, the_os, set_os, tell, debug_via_flag,
    read_config, write_config, write_jwtAlgo, jwt_NewHS256, user_Lookup,
    osrelease_Read, ioutil_ReadDir, zap_Warnw, GetPath in *; simpl in *.

(** ** Nil pointers *)

(** X1: [Set(nil)] panics whether or not a configuration is active, and
    so does every method called on a nil [*Configuration]. *)
Theorem nil_pointer_panics (w : World) (u : user.User) :
  Set_ nil w = None
  /\ GetPath nil w = None
  /\ WriteToDisk nil w = None
  /\ setSystemUser nil u w = None
  /\ EnsurePterodactylUser nil w = None
  /\ EnsureFilePermissions nil w = None.
Proof.
  repeat split; try reflexivity.
  unfold Set_. plumb. destruct (_config w) as [|l]; simpl; [reflexivity|].
  destruct (heap w !! l); reflexivity.
Qed.

(** ** The store over a whole run *)

#[local] Instance tokens_kept_refl : Reflexive tokens_kept.
Proof. intros w. repeat split. Qed.

#[local] Instance tokens_kept_trans : Transitive tokens_kept.
Proof.
  intros a b c ([A1 A2] & A3 & A4) ([B1 B2] & B3 & B4).
  repeat split; try congruence.
Qed.

Lemma tk_load (c : ptr) : preserves tokens_kept (load c).
Proof. intros w a w' E. unfold load in E. destruct (deref c w); inversion E. reflexivity. Qed.

Lemma tk_the_os : preserves tokens_kept the_os.
Proof. intros w a w' [= <- <-]. reflexivity. Qed.

Lemma tk_set_os (o : OS) : preserves tokens_kept (set_os o).
Proof. intros w a w' [= <- <-]. repeat split. Qed.

Lemma tk_tell (e : event) : preserves tokens_kept (tell e).
Proof. intros w a w' [= <- <-]. repeat split. Qed.

Lemma tk_flag : preserves tokens_kept debug_via_flag.
Proof. intros w a w' [= <- <-]. reflexivity. Qed.

Lemma tk_SetDebugViaFlag (d : bool) : preserves tokens_kept (SetDebugViaFlag d).
Proof. intros w a w' [= <- <-]. repeat split. Qed.

Lemma tk_Get : preserves tokens_kept Get.
Proof. intros w a w' [= <- <-]. reflexivity. Qed.

Lemma tk_GetJwtAlgorithm : preserves tokens_kept GetJwtAlgorithm.
Proof. intros w a w' [= <- <-]. reflexivity. Qed.

Create HintDb tk discriminated.
#[local] Hint Resolve tk_load tk_the_os tk_set_os tk_tell tk_flag
  tk_SetDebugViaFlag tk_Get tk_GetJwtAlgorithm : tk.

Ltac tk :=
  repeat first
    [ solve [auto with tk]
    | apply preserves_ret; typeclasses eauto
    | apply preserves_bind; [typeclasses eauto | | intros ?]
    | match goal with
      | |- preserves _ (match ?x with _ => _ end) => destruct x
      | |- preserves _ (if ?x then _ else _) => destruct x
      end
    | progress cbv zeta ].

Lemma tk_put_contents (name : string) (ss : list string) :
  preserves tokens_kept (put_contents name ss).
Proof. induction ss as [|s ss IH]; simpl; tk. Qed.
#[local] Hint Resolve tk_put_contents : tk.

Lemma tk_WriteToDisk (c : ptr) : preserves tokens_kept (WriteToDisk c).
Proof. unfold WriteToDisk, GetPath, ioutil_WriteFile. tk. Qed.
#[local] Hint Resolve tk_WriteToDisk : tk.

(** [setSystemUser] writes to the object, but not to its token. *)
Lemma tk_setSystemUser (c : ptr) (u : user.User) :
  preserves tokens_kept (setSystemUser c u).
Proof.
  intros w e w' E.
  destruct (deref c w) as [cfg|] eqn:D.
  2: { unfold setSystemUser in E. plumb. now rewrite D in E. }
  rewrite (setSystemUser_eq _ _ _ _ D) in E.
  transitivity (updated c (record_identity u cfg) w); [|eapply tk_WriteToDisk, E].
  destruct c as [|l]; [discriminate|]. simpl in D.
  repeat split. intros l'. simpl.
  destruct (decide (l = l')) as [<-|N].
  - rewrite lookup_insert_eq, D. reflexivity.
  - now rewrite lookup_insert_ne.
Qed.
#[local] Hint Resolve tk_setSystemUser : tk.

Lemma tk_exec_Output (argv : list string) : preserves tokens_kept (exec_Output argv).
Proof. unfold exec_Output. tk. Qed.
#[local] Hint Resolve tk_exec_Output : tk.

Lemma tk_EnsurePterodactylUser (c : ptr) :
  preserves tokens_kept (EnsurePterodactylUser c).
Proof.
  unfold EnsurePterodactylUser, user_Lookup, getSystemName, osrelease_Read. tk.
Qed.

Lemma tk_run_all (c : ptr) (su : user.User) (fs : list os.FileInfo) :
  preserves tokens_kept (run_all c su fs).
Proof.
  induction fs as [|f fs IH]; simpl; tk.
  unfold chown_entry, os_Chown, zap_Warnw. tk.
Qed.
#[local] Hint Resolve tk_run_all : tk.

Lemma tk_EnsureFilePermissions (c : ptr) :
  preserves tokens_kept (EnsureFilePermissions c).
Proof. unfold EnsureFilePermissions, ioutil_ReadDir, user_Lookup. tk. Qed.

Lemma tk_run_call (k : call) : is_Set k = false -> preserves tokens_kept (run_call k).
Proof.
  pose proof tk_EnsurePterodactylUser. pose proof tk_EnsureFilePermissions.
  destruct k; simpl; [discriminate|..]; intros _; unfold GetPath; tk.
Qed.

Lemma key_consistent_kept (w w' : World) :
  tokens_kept w w' -> key_consistent w -> key_consistent w'.
Proof.
  intros ([C J] & A & T) K. unfold key_consistent in *. rewrite C.
  destruct (_config w) as [|l]; [congruence|].
  destruct K as (cfg & a & D & DA & N & Ky). simpl in D.
  specialize (T l). rewrite D in T. simpl in T.
  destruct (heap w' !! l) as [cfg'|] eqn:D'; [|discriminate].
  injection T as T. exists cfg', a. repeat split; try assumption.
  - unfold deref_algo in *. now rewrite J, A.
  - congruence.
Qed.

(** One [Set]: the pointer is installed, and the key follows the token. *)
Lemma Set_installs (c : ptr) (w w' : World) :
  Set_ c w = Some (tt, w') -> _config w' = c.
Proof.
  unfold Set_. plumb. intros E.
  destruct (_config w) as [|l]; simpl in E.
  - destruct (deref c w) as [new|]; simpl in E; [|discriminate].
    injection E as E. now rewrite <- E.
  - destruct (heap w !! l) as [old|]; simpl in E; [|discriminate].
    destruct (deref c w) as [new|] eqn:D; simpl in E; [|discriminate].
    destruct (negb _); simpl in E; [rewrite D in E; simpl in E|];
      injection E as E; now rewrite <- E.
Qed.

Lemma Set_keeps_key (c : ptr) (w w' : World) :
  key_consistent w -> Set_ c w = Some (tt, w') -> key_consistent w'.
Proof.
  unfold key_consistent, Set_. plumb. intros K E.
  destruct (_config w) as [|l].
  - simpl in E. destruct c as [|lc]; simpl in E; [discriminate|].
    destruct (heap w !! lc) as [new|] eqn:D; simpl in E; [|discriminate].
    inversion E; subst; simpl. exists new, {| alg_name := "HS256"; alg_key := AuthenticationToken new |}.
    repeat split; [exact D|]. rewrite lookup_app_r by reflexivity. now rewrite Nat.sub_diag.
  - destruct K as (old & a & DO & DA & N & Ky). simpl in DO, E. rewrite DO in E. simpl in E.
    destruct c as [|lc]; simpl in E; [discriminate|].
    destruct (heap w !! lc) as [new|] eqn:D; simpl in E; [|discriminate].
    destruct (String.eqb (AuthenticationToken old) (AuthenticationToken new)) eqn:T; simpl in E.
    + apply String.eqb_eq in T. inversion E; subst; simpl.
      exists new, a. repeat split; try assumption. congruence.
    + rewrite D in E. inversion E; subst; simpl.
      exists new, {| alg_name := "HS256"; alg_key := AuthenticationToken new |}.
      repeat split; [exact D|]. rewrite lookup_app_r by reflexivity. now rewrite Nat.sub_diag.
Qed.

(** X2: from the start of the process, after any sequence of exported
    calls that returns, the store is consistent: [GetJwtAlgorithm] gives
    the HS256 algorithm keyed by the token of the configuration [Get]
    gives, and nil while [Get] gives nil.  No call other than [Set] writes
    a token, and [Set] derives the key from the token it installs. *)
Theorem key_follows_configuration (ks : list call) (w w' : World) :
  process_start w ->
  run_calls ks w = Some (tt, w') ->
  Get w' = Some (_config w', w')
  /\ GetJwtAlgorithm w' = Some (_jwtAlgo w', w')
  /\ key_consistent w'.
Proof.
  intros (C & J & _) E. split; [reflexivity|]. split; [reflexivity|].
  assert (K : key_consistent w) by (unfold key_consistent; now rewrite C).
  clear C J. revert w K E. induction ks as [|k ks IH]; intros w K E; simpl in E.
  - injection E as <-. exact K.
  - unfold bind in E. destruct (run_call k w) as [[[] w1]|] eqn:R; [|discriminate].
    apply (IH w1); [|exact E].
    destruct (is_Set k) eqn:S.
    + destruct k; try discriminate. simpl in R. eapply Set_keeps_key; eassumption.
    + eapply key_consistent_kept; [eapply tk_run_call; eassumption | exact K].
Qed.

Lemma run_calls_app (ks1 ks2 : list call) (w : World) :
  run_calls (ks1 ++ ks2) w
  = match run_calls ks1 w with
    | Some (_, w1) => run_calls ks2 w1
    | None => None
    end.
Proof.
  revert w. induction ks1 as [|k ks1 IH]; intros w; simpl; [reflexivity|].
  unfold bind. destruct (run_call k w) as [[[] w1]|]; [apply IH | reflexivity].
Qed.

(** X3: the last [Set] wins.  Whatever was called before, and whatever
    calls other than [Set] come after, [Get] returns the pointer of the
    last [Set]. *)
Theorem Get_returns_last_Set (ks1 ks2 : list call) (c : ptr) (w w' : World) :
  forallb (fun k => negb (is_Set k)) ks2 = true ->
  run_calls (ks1 ++ CallSet c :: ks2) w = Some (tt, w') ->
  Get w' = Some (c, w').
Proof.
  intros F E. rewrite run_calls_app in E.
  destruct (run_calls ks1 w) as [[[] w1]|]; [|discriminate].
  simpl in E. unfold bind in E.
  destruct (Set_ c w1) as [[[] w2]|] eqn:S; [|discriminate].
  apply Set_installs in S.
  destruct (keep_run_calls ks2 F w2 tt w' E) as [KC _].
  unfold Get. now rewrite KC, S.
Qed.

(** ** The persistence writer, further *)

(** X4: without a path nothing is written and nothing is serialized: the
    call returns the error of the missing path and leaves the world as it
    is.  [setSystemUser] then fails with that error after it has updated
    the object in memory. *)
Theorem no_path_no_write (c : ptr) (cfg : Configuration) (u : user.User) (w : World) :
  deref c w = Some cfg ->
  path cfg = "" ->
  WriteToDisk c w = Some (Some (errorString no_path_msg), w)
  /\ setSystemUser c u w
     = Some (Some (errorString no_path_msg), updated c (record_identity u cfg) w).
Proof.
  intros D P. split.
  - rewrite (WriteToDisk_eq _ _ _ D), P. reflexivity.
  - rewrite (setSystemUser_eq _ _ _ _ D).
    rewrite (WriteToDisk_eq _ _ _ (deref_updated _ _ _ _ D)). simpl. now rewrite P.
Qed.

(** X5: persisting twice in a row is persisting once: when a call has
    returned nil, the next call returns nil as well and leaves every file
    as the first call left it. *)
Theorem WriteToDisk_twice (c : ptr) (cfg : Configuration) (w w1 : World) :
  deref c w = Some cfg ->
  WriteToDisk c w = Some (None, w1) ->
  exists w2,
    WriteToDisk c w1 = Some (None, w2)
    /\ files (opsys w2) = files (opsys w1)
    /\ heap w2 = heap w.
Proof.
  intros D E. rewrite (WriteToDisk_eq _ _ _ D) in E.
  destruct (String.eqb (path cfg) "") eqn:P; [discriminate|].
  destruct (yaml_Marshal _) as [err|doc] eqn:Y; [discriminate|].
  rewrite ioutil_WriteFile_eq in E.
  destruct (write_fault (opsys w) (path cfg)) eqn:F; simpl in E; try discriminate.
  injection E as <-.
  set (w1 := written (path cfg) [""; doc] w).
  assert (D1 : deref c w1 = Some cfg) by (destruct c; [discriminate | exact D]).
  exists (written (path cfg) [""; doc] w1).
  rewrite (WriteToDisk_eq _ _ _ D1), P.
  change (_debugViaFlag w1) with (_debugViaFlag w). rewrite Y.
  rewrite ioutil_WriteFile_eq.
  change (write_fault (opsys w1)) with (write_fault (opsys w)). rewrite F. simpl.
  repeat split. now rewrite !insert_insert_eq.
Qed.

(** ** The identity provisioner, further *)

Lemma exec_Output_eq (argv : list string) (w : World) :
  exec_Output argv w = Some (exec_err argv w, ran argv w).
Proof. reflexivity. Qed.

(** The resolution when the account is unknown and the release is read. *)
Lemma resolve_account_unknown (c : ptr) (cfg : Configuration) (err : error)
      (rel : gmap string string) (w : World) :
  deref c w = Some cfg ->
  lookup_account (Username (System cfg)) (opsys w) = inl err ->
  is_UnknownUserError err = true ->
  os_release (opsys w) = inr rel ->
  let name := Username (System cfg) in
  let create (argv : list string) (w0 : World) :=
    match exec_err argv w0 with
    | Some e => Some (inl e, ran argv w0)
    | None => Some (lookup_account name (opsys (ran argv w0)), ran argv w0)
    end in
  resolve_account c w =
    if HasPrefix (default "" (rel !! "ID")) "alpine" then
      match exec_err (addgroup_argv name) w with
      | Some e => Some (inl e, ran (addgroup_argv name) w)
      | None => create (adduser_argv name) (ran (addgroup_argv name) w)
      end
    else create (useradd_argv name) w.
Proof.
  intros D L U R name create. subst create.
  destruct c as [|l]; [discriminate|]. simpl in D.
  unfold resolve_account, getSystemName, exec_Output, exec_err, ran,
    addgroup_argv, adduser_argv, useradd_argv. plumb.
  rewrite D. simpl. rewrite L, U. simpl. rewrite R. simpl. rewrite D. simpl.
  destruct (HasPrefix _ _); simpl.
  - destruct (snd (command_effect _ _ _)); simpl; [reflexivity|].
    destruct (snd (command_effect _ _ _)); simpl; [reflexivity|].
    rewrite D. reflexivity.
  - destruct (snd (command_effect _ _ _)); simpl; [reflexivity|].
    rewrite D. reflexivity.
Qed.

(** The resolution returns on every configuration object and leaves the
    heap, the store and the files alone. *)
Lemma resolve_account_total (c : ptr) (cfg : Configuration) (w : World) :
  deref c w = Some cfg ->
  exists r w1,
    resolve_account c w = Some (r, w1)
    /\ heap w1 = heap w /\ same_store w w1
    /\ (forall u, r = inr u ->
          lookup_account (Username (System cfg)) (opsys w1) = inr u).
Proof.
  intros D. destruct c as [|l]; [discriminate|].
  pose proof D as D0. simpl in D0.
  destruct (lookup_account (Username (System cfg)) (opsys w)) as [err|u] eqn:L.
  2: { exists (inr u), w. rewrite (resolve_account_first _ _ _ _ D L).
       repeat split. now intros u' [= <-]. }
  destruct (is_UnknownUserError err) eqn:U.
  2: { exists (inl err), w. unfold resolve_account. plumb.
       rewrite D0. simpl. rewrite L, U. simpl. repeat split. discriminate. }
  destruct (os_release (opsys w)) as [e|rel] eqn:R.
  { exists (inl e), w. unfold resolve_account, getSystemName. plumb.
    rewrite D0. simpl. rewrite L, U. simpl. rewrite R. simpl.
    repeat split. discriminate. }
  rewrite (resolve_account_unknown _ _ _ _ _ D L U R).
  destruct (HasPrefix _ _);
    repeat match goal with
           | |- context [match exec_err ?a ?x with _ => _ end] => destruct (exec_err a x)
           end;
    eexists _, _; (split; [reflexivity|]); repeat split; try discriminate;
    intros u Q; exact Q.
Qed.

(** X6: [EnsurePterodactylUser] writes to the object it is called on and
    to no other; of that object it assigns the name and the two numeric
    identifiers and nothing else.  The store variables are as before, so
    when the object is the active configuration the update is what [Get]
    gives access to. *)
Theorem identity_recorded_in_place (c : ptr) (cfg : Configuration) (u : user.User)
        (e : option error) (w w' : World) :
  deref c w = Some cfg ->
  EnsurePterodactylUser c w = Some ((Some u, e), w') ->
  exists cfg',
    deref c w' = Some cfg'
    /\ Username (System cfg') = user.Username u
    /\ same_but_identity cfg cfg'
    /\ others_kept c w w'
    /\ Get w' = Some (_config w, w')
    /\ GetJwtAlgorithm w' = Some (_jwtAlgo w, w').
Proof.
  intros D E. rewrite EnsurePterodactylUser_resolve in E.
  destruct (resolve_account_total c cfg w D) as (r & w1 & R & Hh & [SC SJ] & _).
  rewrite R in E. destruct r as [err|u']; [discriminate|].
  assert (D1 : deref c w1 = Some cfg).
  { destruct c as [|l]; [discriminate|]. simpl in *. now rewrite Hh. }
  rewrite (setSystemUser_eq _ _ _ _ D1) in E.
  pose proof (deref_updated c cfg (record_identity u' cfg) w1 D1) as D'.
  destruct (WriteToDisk_frame _ _ _ D') as (e' & w2 & E' & F).
  rewrite E' in E. injection E as -> -> ->.
  destruct F as (Fh & _ & Fc & Fj & _).
  exists (record_identity u cfg).
  destruct c as [|l]; [discriminate|]. simpl in *.
  split; [rewrite Fh; apply lookup_insert_eq|].
  split; [reflexivity|]. split; [repeat split|].
  split; [|unfold Get, GetJwtAlgorithm; rewrite Fc, Fj; simpl; split; congruence].
  intros l' N. rewrite Fh, <- Hh. apply lookup_insert_ne. congruence.
Qed.

(** X7: on a configuration object [EnsurePterodactylUser] returns, and it
    never returns neither an account nor an error: a nil account comes with
    the error that prevented the resolution, and an account that is
    returned is in the database under the configured name. *)
Theorem EnsurePterodactylUser_result (c : ptr) (cfg : Configuration) (w : World) :
  deref c w = Some cfg ->
  exists ru e w',
    EnsurePterodactylUser c w = Some ((ru, e), w')
    /\ (ru = None -> e <> None /\ heap w' = heap w)
    /\ (forall u, ru = Some u ->
          lookup_account (Username (System cfg)) (opsys w') = inr u).
Proof.
  intros D. rewrite EnsurePterodactylUser_resolve.
  destruct (resolve_account_total c cfg w D) as (r & w1 & R & Hh & _ & Lk).
  rewrite R. destruct r as [err|u].
  - exists None, (Some err), w1. repeat split; [discriminate | exact Hh | discriminate].
  - assert (D1 : deref c w1 = Some cfg).
    { destruct c as [|l]; [discriminate|]. simpl in *. now rewrite Hh. }
    destruct (setSystemUser_spec c u cfg w1 D1) as (e & w' & E & _ & _ & _ & Ha & Hl).
    rewrite E. exists (Some u), e, w'. repeat split; try discriminate.
    intros u' [= <-]. rewrite (lookup_account_frame _ _ _ Ha Hl). now apply Lk.
Qed.

(** X8: a lookup that fails for another reason than an unknown account,
    and an unknown account on a host whose release cannot be read, end the
    call before any command: the error is returned with a nil account and
    the world is as it was. *)
Theorem early_failure_runs_nothing (c : ptr) (cfg : Configuration) (err : error)
        (w : World) :
  deref c w = Some cfg ->
  lookup_account (Username (System cfg)) (opsys w) = inl err ->
  (is_UnknownUserError err = false ->
     EnsurePterodactylUser c w = Some ((None, Some err), w))
  /\ (is_UnknownUserError err = true ->
      forall e, os_release (opsys w) = inl e ->
                EnsurePterodactylUser c w = Some ((None, Some e), w)).
Proof.
  intros D L. destruct c as [|l]; [discriminate|]. simpl in D. split.
  - intros U. rewrite EnsurePterodactylUser_resolve.
    unfold resolve_account. plumb. rewrite D. simpl. now rewrite L, U.
  - intros U e R. rewrite EnsurePterodactylUser_resolve.
    unfold resolve_account, getSystemName. plumb. rewrite D. simpl.
    rewrite L, U. simpl. now rewrite R.
Qed.

Lemma commands_ran (argv : list string) (w : World) :
  commands (trace (ran argv w)) = commands (trace w) ++ [EvExec argv].
Proof. unfold commands. simpl. now rewrite List.filter_app. Qed.

Lemma deref_ran (c : ptr) (argv : list string) (w : World) :
  deref c (ran argv w) = deref c w.
Proof. now destruct c. Qed.

(** The tail of [EnsurePterodactylUser] once the commands have run in
    [w0]: the second lookup and, when it succeeds, [setSystemUser]. *)
Lemma after_creation (c : ptr) (cfg : Configuration) (w0 : World) :
  deref c w0 = Some cfg ->
  exists ru e w',
    match lookup_account (Username (System cfg)) (opsys w0) with
    | inr u =>
        match setSystemUser c u w0 with
        | Some (e, w2) => Some ((Some u, e), w2)
        | None => None
        end
    | inl err => Some ((None, Some err), w0)
    end = Some ((ru, e), w')
    /\ commands (trace w') = commands (trace w0)
    /\ accounts (opsys w') = accounts (opsys w0).
Proof.
  intros D. destruct (lookup_account _ _) as [err|u].
  - exists None, (Some err), w0. repeat split.
  - destruct (setSystemUser_spec c u cfg w0 D) as (e & w' & E & _ & _ & C & A & _).
    rewrite E. exists (Some u), e, w'. repeat split; assumption.
Qed.

(** X9: an unknown account on a host that is not Alpine, in particular on
    a host whose release has no [ID], is created by exactly one command,
    [useradd] with the fixed options and the name; when the command fails
    its error is returned with a nil account and nothing is recorded or
    written. *)
Theorem creation_by_useradd (c : ptr) (cfg : Configuration) (err : error)
        (rel : gmap string string) (w : World) :
  deref c w = Some cfg ->
  lookup_account (Username (System cfg)) (opsys w) = inl err ->
  is_UnknownUserError err = true ->
  os_release (opsys w) = inr rel ->
  HasPrefix (default "" (rel !! "ID")) "alpine" = false ->
  let argv := useradd_argv (Username (System cfg)) in
  exists ru e w',
    EnsurePterodactylUser c w = Some ((ru, e), w')
    /\ commands (trace w') = commands (trace w) ++ [EvExec argv]
    /\ accounts (opsys w')
       = fst (command_effect (opsys w) argv (accounts (opsys w)))
    /\ (forall x, exec_err argv w = Some x ->
          ru = None /\ e = Some x /\ heap w' = heap w
          /\ files (opsys w') = files (opsys w)).
Proof.
  intros D L U R A argv.
  rewrite EnsurePterodactylUser_resolve,
    (resolve_account_unknown _ _ _ _ _ D L U R), A.
  fold argv. destruct (exec_err argv w) as [x|] eqn:X.
  - exists None, (Some x), (ran argv w). split; [reflexivity|].
    split; [apply commands_ran|]. split; [reflexivity|].
    intros x' [= <-]. repeat split.
  - assert (D0 : deref c (ran argv w) = Some cfg) by now rewrite deref_ran.
    destruct (after_creation c cfg (ran argv w) D0) as (ru & e & w' & E & C & Ac).
    exists ru, e, w'. split; [exact E|].
    split; [now rewrite C, commands_ran|]. split; [exact Ac | discriminate].
Qed.

(** X10: on Alpine the group is created first, by [addgroup -S name]; when
    that fails its error is returned and [adduser] is not run; otherwise
    [adduser] follows and is the only other command. *)
Theorem creation_on_alpine (c : ptr) (cfg : Configuration) (err : error)
        (rel : gmap string string) (w : World) :
  deref c w = Some cfg ->
  lookup_account (Username (System cfg)) (opsys w) = inl err ->
  is_UnknownUserError err = true ->
  os_release (opsys w) = inr rel ->
  HasPrefix (default "" (rel !! "ID")) "alpine" = true ->
  let group := addgroup_argv (Username (System cfg)) in
  let argv := adduser_argv (Username (System cfg)) in
  exists ru e w',
    EnsurePterodactylUser c w = Some ((ru, e), w')
    /\ match exec_err group w with
       | Some x =>
           ru = None /\ e = Some x
           /\ commands (trace w') = commands (trace w) ++ [EvExec group]
       | None =>
           commands (trace w') = commands (trace w) ++ [EvExec group; EvExec argv]
       end.
Proof.
  intros D L U R A group argv.
  rewrite EnsurePterodactylUser_resolve,
    (resolve_account_unknown _ _ _ _ _ D L U R), A.
  fold group argv. destruct (exec_err group w) as [x|] eqn:X.
  - exists None, (Some x), (ran group w). split; [reflexivity|].
    repeat split. apply commands_ran.
  - destruct (exec_err argv (ran group w)) as [y|] eqn:Y.
    + exists None, (Some y), (ran argv (ran group w)). split; [reflexivity|].
      now rewrite !commands_ran, <- app_assoc.
    + assert (D0 : deref c (ran argv (ran group w)) = Some cfg)
        by now rewrite !deref_ran.
      destruct (after_creation c cfg _ D0) as (ru & e & w' & E & C & _).
      exists ru, e, w'. split; [exact E|].
      now rewrite C, !commands_ran, <- app_assoc.
Qed.

(** ** The command line *)

Lemma Split_sp_nonempty (s : string) : Split_sp s <> [].
Proof.
  induction s as [|c s IH]; simpl; [discriminate|].
  destruct (Ascii.eqb c " "); [discriminate|].
  destruct (Split_sp s); discriminate.
Qed.

Lemma Split_sp_app (a b : string) :
  Split_sp (a ++ String " " b)%string = Split_sp a ++ Split_sp b.
Proof.
  induction a as [|c a IH].
  - reflexivity.
  - change (String c a ++ String " " b)%string
      with (String c (a ++ String " " b)%string).
    simpl. destruct (Ascii.eqb c " "); [now rewrite IH|].
    rewrite IH. pose proof (Split_sp_nonempty a) as N.
    destruct (Split_sp a); [contradiction | reflexivity].
Qed.

Lemma Split_sp_space_free (s : string) : space_free s = true -> Split_sp s = [s].
Proof.
  unfold space_free. induction s as [|c s IH]; simpl; [reflexivity|].
  intros F. apply andb_true_iff in F as [C F].
  apply negb_true_iff in C. rewrite C, (IH F). reflexivity.
Qed.

(** X11: splitting at the spaces loses nothing: there is always a first
    piece (so [split[0]] is in range), no piece contains a space, and
    joining the pieces with single spaces gives the string back. *)
Theorem Split_sp_round_trip (s : string) :
  Split_sp s <> []
  /\ Forall (fun p => space_free p = true) (Split_sp s)
  /\ Join_sp (Split_sp s) = s.
Proof.
  split; [apply Split_sp_nonempty|].
  induction s as [|c s [F J]]; simpl.
  - split; [repeat constructor | reflexivity].
  - destruct (Ascii.eqb c " ") eqn:C.
    + apply Ascii.eqb_eq in C. subst c. split; [now constructor|].
      pose proof (Split_sp_nonempty s) as N.
      simpl. destruct (Split_sp s) as [|p ps]; [contradiction|].
      now rewrite J.
    + pose proof (Split_sp_nonempty s) as N.
      destruct (Split_sp s) as [|p ps]; [contradiction|].
      apply Forall_cons in F as [Fp Fps]. split.
      * constructor; [|exact Fps]. unfold space_free in *. simpl. now rewrite C, Fp.
      * rewrite <- J. destruct ps; reflexivity.
Qed.

(** X12: the arguments the two creation commands receive: the fixed
    options, and the configured name split at its spaces.  A name without
    a space is one argument; a name with spaces becomes several. *)
Theorem command_arguments (name : string) :
  useradd_argv name
  = ["useradd"; "--system"; "--no-create-home"; "--shell"; "/bin/false"]
    ++ Split_sp name
  /\ adduser_argv name
     = ["adduser"; "-S"; "-D"; "-H"; "-G"] ++ Split_sp name
       ++ ["-s"; "/bin/false"] ++ Split_sp name
  /\ (space_free name = true -> Split_sp name = [name]).
Proof.
  split; [|split; [|apply Split_sp_space_free]].
  - unfold useradd_argv, useradd_command.
    change ("useradd --system --no-create-home --shell /bin/false " ++ name)%string
      with ("useradd --system --no-create-home --shell /bin/false"
            ++ String " " name)%string.
    now rewrite Split_sp_app.
  - unfold adduser_argv, adduser_command.
    change ("adduser -S -D -H -G " ++ name ++ " -s /bin/false " ++ name)%string
      with ("adduser -S -D -H -G"
            ++ String " " (name ++ String " " ("-s /bin/false" ++ String " " name)))%string.
    now rewrite !Split_sp_app.
Qed.

(** ** The permission reconciler, further *)

(** X13: [EnsureFilePermissions] with the feature off does nothing and
    returns nil.  It returns an error only when the listing or the lookup
    of the account failed, that error, and then it has changed nothing. *)
Theorem EnsureFilePermissions_errors (c : ptr) (cfg : Configuration) (w : World) :
  deref c w = Some cfg ->
  (SetPermissionsOnBoot (System cfg) = false ->
     EnsureFilePermissions c w = Some (None, w))
  /\ (forall e w',
        EnsureFilePermissions c w = Some (Some e, w') ->
        w' = w /\ SetPermissionsOnBoot (System cfg) = true
        /\ (dir_listing (opsys w) (Data (System cfg)) = inl e
            \/ exists entries,
                 dir_listing (opsys w) (Data (System cfg)) = inr entries
                 /\ lookup_account (Username (System cfg)) (opsys w) = inl e)).
Proof.
  intros D. pose proof D as D0.
  destruct c as [|l]; [discriminate|]. simpl in D0. split.
  - intros S. unfold EnsureFilePermissions. plumb. rewrite D0. simpl. now rewrite S.
  - intros e w' E.
    destruct (SetPermissionsOnBoot (System cfg)) eqn:S.
    2: { unfold EnsureFilePermissions in E. plumb. rewrite D0 in E. simpl in E.
         rewrite S in E. discriminate. }
    destruct (dir_listing (opsys w) (Data (System cfg))) as [e1|entries] eqn:L.
    { unfold EnsureFilePermissions in E. plumb. rewrite D0 in E. simpl in E.
      rewrite S in E. simpl in E. rewrite D0 in E. simpl in E. rewrite L in E.
      injection E as <- <-. repeat split. now left. }
    destruct (lookup_account (Username (System cfg)) (opsys w)) as [e2|su] eqn:U.
    { unfold EnsureFilePermissions in E. plumb. rewrite D0 in E. simpl in E.
      rewrite S in E. simpl in E. rewrite D0 in E. simpl in E. rewrite L in E.
      simpl in E. rewrite D0 in E. simpl in E. rewrite U in E.
      injection E as <- <-. repeat split. right. now exists entries. }
    destruct (EnsureFilePermissions_spec _ _ _ _ _ D S L U) as (w1 & E1 & _).
    rewrite E1 in E. discriminate.
Qed.

(** One goroutine, on the table of owners. *)
Lemma chown_entry_owners (c : ptr) (cfg : Configuration) (su : user.User)
      (f : os.FileInfo) (w : World) :
  deref c w = Some cfg ->
  exists w',
    chown_entry c su f w = Some (tt, w')
    /\ same_but_owners w w'
    /\ owners (opsys w')
       = if chown_succeeds cfg (chown_fault (opsys w)) f
         then <[entry_path cfg f :=
                  (fst (Atoi (user.Uid su)), fst (Atoi (user.Gid su)))]>
                (owners (opsys w))
         else owners (opsys w).
Proof.
  intros D. unfold chown_entry, chown_succeeds, entry_path, os_Chown.
  rewrite <- negb_andb. fold (qualifies f).
  destruct (qualifies f); simpl.
  2: { exists w. repeat split. }
  destruct c as [|l]; [discriminate|]. plumb. rewrite D. simpl.
  destruct (chown_fault (opsys w) _) as [err|]; simpl;
    eexists; (split; [reflexivity|]); simpl; repeat split.
Qed.

Lemma run_all_owners (c : ptr) (cfg : Configuration) (su : user.User)
      (fs : list os.FileInfo) (w : World) :
  deref c w = Some cfg ->
  exists w',
    run_all c su fs w = Some (tt, w')
    /\ same_but_owners w w'
    /\ forall p,
         owners (opsys w') !! p
         = if reowned cfg (chown_fault (opsys w)) fs p
           then Some (fst (Atoi (user.Uid su)), fst (Atoi (user.Gid su)))
           else owners (opsys w) !! p.
Proof.
  revert w. induction fs as [|f fs IH]; intros w D; simpl.
  - exists w. repeat split.
  - destruct (chown_entry_owners c cfg su f w D) as (w1 & E & F & O).
    assert (D1 : deref c w1 = Some cfg).
    { destruct F as (Hh & _). destruct c as [|l]; [discriminate|].
      simpl in *. now rewrite Hh. }
    destruct (IH w1 D1) as (w' & E' & F' & O').
    exists w'. unfold bind. rewrite E, E'. split; [reflexivity|]. split.
    + destruct F as (A1 & [A2 A3] & A4 & A5 & A6 & A7 & A8 & A9).
      destruct F' as (B1 & [B2 B3] & B4 & B5 & B6 & B7 & B8 & B9).
      repeat split; congruence.
    + intros p. rewrite O'.
      destruct F as (_ & _ & _ & _ & _ & _ & Hf & _). rewrite Hf, O.
      destruct (reowned cfg (chown_fault (opsys w)) fs p); [now rewrite orb_true_r|].
      rewrite orb_false_r.
      destruct (chown_succeeds cfg (chown_fault (opsys w)) f); simpl; [|reflexivity].
      destruct (String.eqb (entry_path cfg f) p) eqn:Q.
      * apply String.eqb_eq in Q. subst p. apply lookup_insert_eq.
      * apply String.eqb_neq in Q. now apply lookup_insert_ne.
Qed.

Lemma EnsureFilePermissions_owners (c : ptr) (cfg : Configuration)
      (entries : list os.FileInfo) (su : user.User) (w : World) :
  deref c w = Some cfg ->
  SetPermissionsOnBoot (System cfg) = true ->
  dir_listing (opsys w) (Data (System cfg)) = inr entries ->
  lookup_account (Username (System cfg)) (opsys w) = inr su ->
  exists w',
    EnsureFilePermissions c w = Some (None, w')
    /\ same_but_owners w w'
    /\ forall p,
         owners (opsys w') !! p
         = if reowned cfg (chown_fault (opsys w)) (go_schedule (opsys w) entries) p
           then Some (fst (Atoi (user.Uid su)), fst (Atoi (user.Gid su)))
           else owners (opsys w) !! p.
Proof.
  intros D S L U.
  destruct (run_all_owners c cfg su (go_schedule (opsys w) entries) w D)
    as (w' & E & F & O).
  exists w'. unfold EnsureFilePermissions. plumb.
  rewrite D. simpl. rewrite S. simpl. rewrite D. simpl. rewrite L. simpl.
  rewrite D. simpl. rewrite U. simpl. rewrite E. repeat split; try apply F. exact O.
Qed.



(** X15: reconciling twice is reconciling once: after a run, a second run
    on the same listing returns nil and leaves the table of owners as the
    first run left it. *)
Theorem reconciler_twice (c : ptr) (cfg : Configuration)
        (entries : list os.FileInfo) (su : user.User) (w w1 : World) :
  deref c w = Some cfg ->
  SetPermissionsOnBoot (System cfg) = true ->
  dir_listing (opsys w) (Data (System cfg)) = inr entries ->
  lookup_account (Username (System cfg)) (opsys w) = inr su ->
  EnsureFilePermissions c w = Some (None, w1) ->
  exists w2,
    EnsureFilePermissions c w1 = Some (None, w2)
    /\ owners (opsys w2) = owners (opsys w1).
Proof.
  intros D S L U E.
  destruct (EnsureFilePermissions_owners c cfg entries su w D S L U) as (w' & E' & F & O).
  rewrite E' in E. injection E as ->.
  destruct F as (Hh & _ & Ha & Hl & _ & Hd & Hc & Hs).
  assert (D1 : deref c w1 = Some cfg).
  { destruct c as [|l]; [discriminate|]. simpl in *. now rewrite Hh. }
  assert (L1 : dir_listing (opsys w1) (Data (System cfg)) = inr entries)
    by now rewrite Hd.
  assert (U1 : lookup_account (Username (System cfg)) (opsys w1) = inr su)
    by now rewrite (lookup_account_frame _ _ _ Ha Hl).
  destruct (EnsureFilePermissions_owners c cfg entries su w1 D1 S L1 U1)
    as (w2 & E2 & _ & O2).
  exists w2. split; [exact E2|]. apply map_eq. intros p.
  rewrite O2, Hc, Hs, O.
  now destruct (reowned cfg (chown_fault (opsys w)) (go_schedule (opsys w) entries) p).
Qed.

(** ** Names and identifiers *)

Lemma string_length_app (a b : string) :
  String.length (a ++ b)%string = (String.length a + String.length b)%nat.
Proof.
  induction a as [|c a IH]; [reflexivity|].
  change (String c a ++ b)%string with (String c (a ++ b)%string).
  simpl. now rewrite IH.
Qed.

Lemma string_forallb_app (q : ascii -> bool) (a b : string) :
  string_forallb q (a ++ b)%string = string_forallb q a && string_forallb q b.
Proof.
  induction a as [|c a IH]; [reflexivity|].
  change (String c a ++ b)%string with (String c (a ++ b)%string).
  simpl. now rewrite IH, andb_assoc.
Qed.

Lemma string_forallb_impl (q r : ascii -> bool) (s : string) :
  (forall c, q c = true -> r c = true) ->
  string_forallb q s = true -> string_forallb r s = true.
Proof.
  intros I. induction s as [|c s IH]; simpl; [reflexivity|].
  intros F. apply andb_true_iff in F as [Q F]. now rewrite (I c Q), IH.
Qed.

Lemma variant_is_hex (v : ascii) : is_variant_nibble v = true -> is_lower_hex v = true.
Proof.
  unfold is_variant_nibble. rewrite !orb_true_iff, !Ascii.eqb_eq.
  intros [[[->| ->]| ->]| ->]; reflexivity.
Qed.

Lemma uuid_char_safe (c : ascii) :
  is_uuid_char c = true -> c <> "/"%char /\ c <> "."%char.
Proof. intros U. split; intros ->; discriminate. Qed.

(** X16: every name the pattern accepts is 36 bytes long and made of
    lowercase hexadecimal digits and dashes only: it contains no path
    separator and no dot, so the path handed to [os.Chown] names an entry
    of the data directory itself. *)
Theorem workload_name_shape (name : string) :
  MatchString uuid4_regex name = true ->
  String.length name = 36%nat
  /\ string_forallb is_uuid_char name = true
  /\ string_forallb (fun c => negb (Ascii.eqb c "/") && negb (Ascii.eqb c ".")) name
     = true.
Proof.
  intros Mt. apply uuid4_regex_spec in Mt
    as (g1 & g2 & g3 & v & g4 & g5 & -> & [L1 F1] & [L2 F2] & [L3 F3] & V
        & [L4 F4] & [L5 F5]).
  assert (HX : forall g, string_forallb is_lower_hex g = true ->
                         string_forallb is_uuid_char g = true).
  { intros g. apply string_forallb_impl. intros c Q. unfold is_uuid_char. now rewrite Q. }
  assert (Sh : String.length
                 (g1 ++ "-" ++ g2 ++ "-" ++ String "4" g3 ++ "-" ++ String v g4
                  ++ "-" ++ g5)%string = 36%nat
               /\ string_forallb is_uuid_char
                    (g1 ++ "-" ++ g2 ++ "-" ++ String "4" g3 ++ "-" ++ String v g4
                     ++ "-" ++ g5)%string = true).
  { assert (AC : forall c a b, (String c a ++ b)%string = String c (a ++ b)%string)
      by reflexivity.
    assert (AE : forall b, ("" ++ b)%string = b) by reflexivity.
    split.
    - repeat first [rewrite string_length_app | rewrite AC | rewrite AE
                   | progress simpl].
      rewrite L1, L2, L3, L4, L5. reflexivity.
    - repeat first [rewrite string_forallb_app | rewrite AC | rewrite AE
                   | progress simpl].
      rewrite (HX _ F1), (HX _ F2), (HX _ F3), (HX _ F4), (HX _ F5).
      unfold is_uuid_char at 1. now rewrite (variant_is_hex _ V). }
  destruct Sh as [Sl Sf]. split; [exact Sl|]. split; [exact Sf|].
  revert Sf. apply string_forallb_impl. intros c U.
  destruct (uuid_char_safe c U) as [N1 N2].
  apply Ascii.eqb_neq in N1, N2. now rewrite N1, N2.
Qed.

Lemma is_digit_val (c : ascii) :
  is_digit c = true -> 0 <= byte_val c - byte_val "0" <= 9.
Proof.
  unfold is_digit, in_range. rewrite andb_true_iff, !Z.leb_le.
  change (byte_val "0") with 48. change (byte_val "9") with 57. lia.
Qed.

(** With at most 19 digits to go after [k] digits read, the loop of
    [ParseUint] does not leave the range: it reads the digits, or stops
    at the first character that is not one. *)
Lemma ParseUint_loop_short (s : string) (k : nat) (n : Z) :
  0 <= n < 10 ^ Z.of_nat k ->
  (String.length s + k <= 19)%nat ->
  ParseUint_loop s n
  = if string_forallb is_digit s then (decimal_from n s, None)
    else (0, Some ErrSyntax).
Proof.
  revert k n. induction s as [|c s IH]; intros k n Hn Hl; simpl; [reflexivity|].
  destruct (is_digit c) eqn:Dg; simpl; [|reflexivity].
  pose proof (is_digit_val c Dg) as Dv.
  set (d := byte_val c - byte_val "0") in *.
  assert (K18 : (k <= 18)%nat) by (simpl in Hl; lia).
  assert (P18 : 10 ^ Z.of_nat k <= 10 ^ 18) by (apply Z.pow_le_mono_r; lia).
  assert (PS : 10 ^ Z.of_nat (S k) = 10 * 10 ^ Z.of_nat k).
  { rewrite Nat2Z.inj_succ, Z.pow_succ_r by lia. reflexivity. }
  change (maxUint64 / 10 + 1) with 1844674407370955162.
  change (10 ^ 18) with 1000000000000000000 in P18.
  destruct (1844674407370955162 <=? n) eqn:C; [apply Z.leb_le in C; lia|].
  assert (M : (n * 10 + d) mod 2 ^ 64 = n * 10 + d).
  { apply Z.mod_small. change (2 ^ 64) with 18446744073709551616. lia. }
  rewrite M.
  destruct (n * 10 + d <? n * 10) eqn:C1; [apply Z.ltb_lt in C1; lia|].
  change maxUint64 with 18446744073709551615.
  destruct (18446744073709551615 <? n * 10 + d) eqn:C2; [apply Z.ltb_lt in C2; lia|].
  simpl. apply (IH (S k)); [rewrite PS; lia | simpl in Hl; lia].
Qed.

Lemma decimal_from_bound (s : string) (k : nat) (n : Z) :
  0 <= n < 10 ^ Z.of_nat k ->
  string_forallb is_digit s = true ->
  0 <= decimal_from n s < 10 ^ Z.of_nat (String.length s + k).
Proof.
  revert k n. induction s as [|c s IH]; intros k n Hn F; simpl; [exact Hn|].
  apply andb_true_iff in F as [Dg F]. pose proof (is_digit_val c Dg) as Dv.
  replace (S (String.length s + k)) with (String.length s + S k)%nat by lia.
  apply IH; [|exact F].
  rewrite Nat2Z.inj_succ, Z.pow_succ_r by lia. lia.
Qed.

Lemma ParseUint_short_refuse (s : string) :
  unsigned_literal s = false -> (String.length s <= 19)%nat ->
  ParseUint s = (0, Some ErrSyntax).
Proof.
  unfold unsigned_literal, ParseUint. destruct s as [|c s]; [reflexivity|].
  simpl negb. rewrite andb_true_l. intros N Ln.
  rewrite (ParseUint_loop_short _ 0 0) by (simpl in *; lia). now rewrite N.
Qed.

(** [Atoi] on short strings: a string of at most 18 digits is read as the
    number it writes; a string of at most 19 bytes that is not a decimal
    literal is refused with a syntax error and the value 0. *)
Lemma Atoi_short (s : string) :
  (unsigned_literal s = true -> (String.length s <= 18)%nat ->
     Atoi s = (decimal_value s, None))
  /\ (int_literal s = false -> (String.length s <= 19)%nat ->
      Atoi s = (0, Some ErrSyntax)).
Proof.
  split.
  - unfold unsigned_literal, Atoi, ParseInt, ParseUint, decimal_value.
    destruct s as [|c s]; [discriminate|]. simpl negb. rewrite andb_true_l.
    intros F Ln. pose proof F as F0. simpl in F0.
    apply andb_true_iff in F0 as [Dg _].
    assert (Sg : Ascii.eqb c "+" || Ascii.eqb c "-" = false).
    { apply orb_false_iff.
      split; apply Ascii.eqb_neq; intros ->; discriminate. }
    apply orb_false_iff in Sg as [Sp Sm]. rewrite Sp, Sm. cbn [orb negb andb].
    rewrite (ParseUint_loop_short (String c s) 0 0) by (simpl in *; lia). rewrite F.
    pose proof (decimal_from_bound (String c s) 0 0 ltac:(simpl; lia) F) as B.
    assert (P : 10 ^ Z.of_nat (String.length (String c s) + 0) <= 10 ^ 18).
    { apply Z.pow_le_mono_r; lia. }
    change (10 ^ 18) with 1000000000000000000 in P.
    unfold intSize. change (2 ^ (64 - 1)) with 9223372036854775808.
    destruct (9223372036854775808 <=? decimal_from 0 (String c s)) eqn:C;
      [apply Z.leb_le in C; lia | reflexivity].
  - unfold int_literal, Atoi, ParseInt.
    destruct s as [|c s]; [reflexivity|]. intros NL Ln.
    destruct (Ascii.eqb c "-"), (Ascii.eqb c "+"); cbn [orb] in *;
      rewrite (ParseUint_short_refuse _ NL) by (simpl in *; lia); reflexivity.
Qed.

(** X17: what [setSystemUser] records for the identifiers an account can
    have: a string of at most 18 digits, such as the decimal identifiers of
    a POSIX account, is recorded as the number it writes; a string of at
    most 19 bytes that is not a decimal literal, such as a name, is recorded
    as 0 without any error. *)
Theorem recorded_identifier (c : ptr) (u : user.User) (cfg : Configuration) (w : World) :
  deref c w = Some cfg ->
  exists e w' cfg',
    setSystemUser c u w = Some (e, w')
    /\ deref c w' = Some cfg'
    /\ (unsigned_literal (user.Uid u) = true ->
        (String.length (user.Uid u) <= 18)%nat ->
        Uid (User (System cfg')) = decimal_value (user.Uid u))
    /\ (unsigned_literal (user.Gid u) = true ->
        (String.length (user.Gid u) <= 18)%nat ->
        Gid (User (System cfg')) = decimal_value (user.Gid u))
    /\ (int_literal (user.Uid u) = false ->
        (String.length (user.Uid u) <= 19)%nat ->
        Uid (User (System cfg')) = 0)
    /\ (int_literal (user.Gid u) = false ->
        (String.length (user.Gid u) <= 19)%nat ->
        Gid (User (System cfg')) = 0).
Proof.
  intros D. destruct (setSystemUser_spec c u cfg w D) as (e & w' & E & _ & D' & _).
  exists e, w', (record_identity u cfg). split; [exact E|]. split; [exact D'|]. simpl.
  destruct (Atoi_short (user.Uid u)) as [U1 U2].
  destruct (Atoi_short (user.Gid u)) as [G1 G2].
  repeat split; intros A B.
  - now rewrite (U1 A B).
  - now rewrite (G1 A B).
  - now rewrite (U2 A B).
  - now rewrite (G2 A B).
Qed.

End Further.

(** ** Loading *)

Section FurtherLoading.
Context `{Ld : Loader}.
Local Open Scope list_scope.

(** [ReadConfiguration], case by case. *)
Lemma ReadConfiguration_eq (p : string) (w : World) :
  ReadConfiguration p w =
    match read_fault p with
    | Some e => Some ((nil, Some e), w)
    | None =>
        match files (opsys w) !! p with
        | None => Some ((nil, Some (SysError "no such file or directory")), w)
        | Some b =>
            let l := fresh (dom (heap w)) in
            let h0 := <[l := zero_Configuration]> (heap w) in
            match defaults_Set zero_Configuration with
            | inl e => Some ((nil, Some e), with_heap h0 w)
            | inr d =>
                let h1 := <[l := set_path p d]> (<[l := d]> h0) in
                match yaml_Unmarshal (os_ExpandEnv b) (set_path p d) with
                | inl e => Some ((nil, Some e), with_heap h1 w)
                | inr cfg => Some ((addr l, None), with_heap (<[l := cfg]> h1) w)
                end
            end
        end
    end.
Proof.
  unfold ReadConfiguration, ioutil_ReadFile, new_Configuration,
    bind, ret, load, store, the_os. simpl.
  destruct (read_fault p); [reflexivity|].
  destruct (files (opsys w) !! p) as [b|]; [|reflexivity]. simpl.
  rewrite lookup_insert_eq.
  destruct (defaults_Set zero_Configuration) as [e|d]; [reflexivity|]. simpl.
  rewrite lookup_insert_eq. simpl. rewrite lookup_insert_eq.
  destruct (yaml_Unmarshal _ _); reflexivity.
Qed.

Lemma fresh_is_free (w : World) : heap w !! fresh (dom (heap w)) = None.
Proof. apply not_elem_of_dom, is_fresh. Qed.

(** X18: [ReadConfiguration] never panics and never returns neither a
    configuration nor an error: the pointer is nil exactly when the error
    is not.  The object returned is a new one: no pointer obtained before
    the call refers to it, and the objects, the store, the operating system
    and the trace the call found are untouched. *)
Theorem ReadConfiguration_result (p : string) (w : World) :
  exists r e w',
    ReadConfiguration p w = Some ((r, e), w')
    /\ (r = nil <-> e <> None)
    /\ (forall l cfg, heap w !! l = Some cfg -> heap w' !! l = Some cfg)
    /\ (forall l, r = addr l -> heap w !! l = None /\ is_Some (heap w' !! l))
    /\ same_store w w' /\ _debugViaFlag w' = _debugViaFlag w
    /\ opsys w' = opsys w /\ trace w' = trace w.
Proof.
  rewrite ReadConfiguration_eq.
  assert (K : forall l cfg x (h : gmap loc Configuration),
            heap w !! l = Some cfg ->
            h !! l = Some cfg ->
            <[fresh (dom (heap w)) := x]> h !! l = Some cfg).
  { intros l cfg x h A B. rewrite lookup_insert_ne; [exact B|].
    intros <-. rewrite fresh_is_free in A. discriminate. }
  destruct (read_fault p) as [e|].
  { exists nil, (Some e), w. repeat split; try discriminate; auto. }
  destruct (files (opsys w) !! p) as [b|].
  2: { eexists nil, _, w. repeat split; try discriminate; auto. }
  cbv zeta. destruct (defaults_Set zero_Configuration) as [e|d].
  { eexists nil, (Some e), _. split; [reflexivity|]. simpl.
    repeat split; try discriminate; auto. }
  destruct (yaml_Unmarshal _ _) as [e|cfg].
  { eexists nil, (Some e), _. split; [reflexivity|]. simpl.
    repeat split; try discriminate; auto. }
  eexists (addr _), None, _. split; [reflexivity|]. simpl.
  split; [split; [discriminate | intros N; now destruct N]|].
  split; [auto|]. split; [|repeat split].
  intros l [= <-]. split; [apply fresh_is_free|].
  rewrite lookup_insert_eq. eauto.
Qed.

(** X19: what a successful [ReadConfiguration] returns: the defaults,
    with the path, overridden by the document of the file after its
    environment variables have been expanded.  When the parser leaves the
    unexported field alone, [GetPath] of the result is the path read, so a
    later [WriteToDisk] goes back to the same file. *)
Theorem ReadConfiguration_loads (p : string) (r : ptr) (w w' : World) :
  (forall b c c', yaml_Unmarshal b c = inr c' -> path c' = path c) ->
  ReadConfiguration p w = Some ((r, None), w') ->
  exists b d cfg,
    files (opsys w) !! p = Some b
    /\ defaults_Set zero_Configuration = inr d
    /\ yaml_Unmarshal (os_ExpandEnv b) (set_path p d) = inr cfg
    /\ deref r w' = Some cfg
    /\ GetPath r w' = Some (p, w').
Proof.
  intros Hp E. rewrite ReadConfiguration_eq in E.
  destruct (read_fault p); [discriminate|].
  destruct (files (opsys w) !! p) as [b|]; [|discriminate].
  cbv zeta in E. destruct (defaults_Set zero_Configuration) as [e|d]; [discriminate|].
  destruct (yaml_Unmarshal _ _) as [e|cfg] eqn:Y; [discriminate|].
  injection E as <- <-. exists b, d, cfg.
  assert (D : deref (addr (fresh (dom (heap w))))
                (with_heap (<[fresh (dom (heap w)) := cfg]>
                   (<[fresh (dom (heap w)) := set_path p d]>
                      (<[fresh (dom (heap w)) := d]>
                         (<[fresh (dom (heap w)) := zero_Configuration]> (heap w))))) w)
              = Some cfg) by (simpl; apply lookup_insert_eq).
  repeat split; try assumption.
  unfold GetPath, bind, load, ret. rewrite D. now rewrite (Hp _ _ _ Y).
Qed.

End FurtherLoading.

Section WriteAndRead.
Context `{Lb : Libraries} {Ld : Loader}.

(** X20: what is read is what was written.  After a [WriteToDisk] that
    returned nil, [ReadConfiguration] of the same path parses the document
    [WriteToDisk] serialized, the one with [Debug] false when the flag was
    set, after the expansion of its environment variables; the object it
    returns is not the one that was written. *)
Theorem write_then_read (c : ptr) (cfg d : Configuration) (w w1 : World) :
  deref c w = Some cfg ->
  WriteToDisk c w = Some (None, w1) ->
  read_fault (path cfg) = None ->
  defaults_Set zero_Configuration = inr d ->
  exists doc,
    yaml_Marshal (persisted (_debugViaFlag w) cfg) = inr doc
    /\ files (opsys w1) !! path cfg = Some doc
    /\ match yaml_Unmarshal (os_ExpandEnv doc) (set_path (path cfg) d) with
       | inl e => exists w2, ReadConfiguration (path cfg) w1 = Some ((nil, Some e), w2)
       | inr x =>
           exists r w2,
             ReadConfiguration (path cfg) w1 = Some ((r, None), w2)
             /\ deref r w2 = Some x /\ r <> c
             /\ deref c w2 = Some cfg
       end.
Proof.
  intros D E Rf Df. rewrite (WriteToDisk_eq _ _ _ D) in E.
  destruct (String.eqb (path cfg) ""); [discriminate|].
  destruct (yaml_Marshal _) as [err|doc]; [discriminate|].
  rewrite ioutil_WriteFile_eq in E.
  destruct (write_fault (opsys w) (path cfg));
    cbn [WriteFile_contents fst snd] in E; try discriminate.
  injection E as E. exists doc. split; [reflexivity|].
  assert (F : files (opsys w1) !! path cfg = Some doc).
  { rewrite <- E. simpl. apply lookup_insert_eq. }
  assert (Hh : heap w1 = heap w) by now rewrite <- E.
  clear E. split; [exact F|].
  rewrite ReadConfiguration_eq, Rf, F, Df. cbv zeta.
  destruct (yaml_Unmarshal _ _) as [e|x]; [eauto|].
  eexists _, _. split; [reflexivity|].
  destruct c as [|l]; [discriminate|]. simpl in D.
  assert (N : fresh (dom (heap w1)) <> l).
  { intros Q. pose proof (fresh_is_free w1) as Fr. rewrite Q, Hh in Fr. congruence. }
  split; [simpl; apply lookup_insert_eq|]. split; [congruence|].
  simpl. rewrite !lookup_insert_ne by exact N. now rewrite Hh.
Qed.

End WriteAndRead.
(** ** Examples *)

Example uuid_match :
  MatchString uuid4_regex "a1b2c3d4-e5f6-4789-8abc-def012345678" = true.
Proof. reflexivity. Qed.

Example uuid_plain_folder : MatchString uuid4_regex "plain-folder" = false.
Proof. reflexivity. Qed.

Example atoi_1000 : Atoi "1000" = (1000, None).
Proof. reflexivity. Qed.

Example atoi_neg : Atoi "-12" = (-12, None).
Proof. reflexivity. Qed.

Example atoi_sid : Atoi "S-1-5-21" = (0, Some ErrSyntax).
Proof. reflexivity. Qed.

Example atoi_big : Atoi "99999999999999999999" = (maxInt, Some ErrRange).
Proof. vm_compute. reflexivity. Qed.

Example atoi_min : Atoi "-9223372036854775808" = (minInt, None).
Proof. vm_compute. reflexivity. Qed.

Example split_useradd :
  Split_sp "useradd --system pterodactyl" = ["useradd"; "--system"; "pterodactyl"].
Proof. reflexivity. Qed.


(** The flag is set and the snapshot has [Debug] true: the file receives
    [debug: false]. *)
Example write_with_flag :
  (fun r => (fst r, files (opsys (snd r)) !! demo_path))
    <$> WriteToDisk (H0 := demo_libs) (addr 0%nat) demo_flagged
  = Some (None, Some "debug: false; token: secret; username: pterodactyl").
Proof. vm_compute. reflexivity. Qed.

Example write_without_flag :
  (fun r => (fst r, files (opsys (snd r)) !! demo_path))
    <$> WriteToDisk (H0 := demo_libs) (addr 0%nat) demo_quiet
  = Some (None, Some "debug: true; token: secret; username: pterodactyl").
Proof. vm_compute. reflexivity. Qed.

(** No account yet on a Debian host: one [useradd], then the account is
    found and recorded. *)
Example create_on_debian :
  (fun r => (fst r, trace (snd r), User <$> (System <$> deref (addr 0%nat) (snd r))))
    <$> EnsurePterodactylUser (H0 := demo_libs) (addr 0%nat) demo_bare
  = Some
      ((Some {| user.Uid := "998"; user.Gid := "998"; user.Username := "pterodactyl";
                user.Name := ""; user.HomeDir := "" |}, None),
       [EvExec ["useradd"; "--system"; "--no-create-home"; "--shell"; "/bin/false";
                "pterodactyl"];
        EvFile demo_path "";
        EvFile demo_path "debug: true; token: secret; username: pterodactyl"],
       Some {| Uid := 998; Gid := 998 |}).
Proof. vm_compute. reflexivity. Qed.

(** The three entries of the specification's example: only the workload
    directory changes owner; when the change is refused the call still
    returns nil and a warning is left. *)
Example reconcile_three_entries :
  (fun r => (fst r, trace (snd r), map_to_list (owners (opsys (snd r)))))
    <$> EnsureFilePermissions (H0 := demo_libs) (addr 0%nat) demo_quiet
  = Some (None, [EvChown demo_uuid_dir 1000 1000], [(demo_uuid_dir, (1000, 1000))]).
Proof. vm_compute. reflexivity. Qed.

Example reconcile_refused :
  (fun r => (fst r, trace (snd r), map_to_list (owners (opsys (snd r)))))
    <$> EnsureFilePermissions (H0 := demo_libs) (addr 0%nat) demo_denied
  = Some (None,
          [EvChown demo_uuid_dir 1000 1000;
           EvWarn chown_warning "a1b2c3d4-e5f6-4789-8abc-def012345678"
             (SysError "permission denied")],
          []).
Proof. vm_compute. reflexivity. Qed.

(** ** The theorems at work on the concrete host *)



Lemma WriteToDisk_leaves_snapshot_witness :
  exists r w',
    WriteToDisk (H0 := demo_libs) (addr 0%nat) demo_flagged = Some (r, w')
    /\ deref (addr 0%nat) w' = Some (demo_config "secret" true).
Proof.
  destruct (WriteToDisk_leaves_snapshot (H0 := demo_libs) (addr 0%nat)
              (demo_config "secret" true) demo_flagged eq_refl)
    as (r & w' & E & _ & D & _).
  exists r, w'. split; [exact E | exact D].
Defined.



Lemma Get_before_Set_witness :
  match
    run_calls (H0 := demo_libs) demo_calls demo_quiet
  with
  | Some (_, w') => Get w' = Some (nil, w') /\ GetJwtAlgorithm w' = Some (nil, w')
  | None => False
  end.
Proof.
  destruct (run_calls demo_calls demo_quiet) as [[[] w']|] eqn:E.
  - destruct (Get_before_Set (H0 := demo_libs) demo_calls demo_quiet w'
                (conj eq_refl (conj eq_refl eq_refl)) eq_refl E) as (G & J & _).
    split; assumption.
  - vm_compute in E. discriminate.
Defined.

Lemma setSystemUser_records_witness :
  exists e w' cfg',
    setSystemUser (H0 := demo_libs) (addr 0%nat) demo_huge demo_quiet = Some (e, w')
    /\ deref (addr 0%nat) w' = Some cfg'
    /\ Uid (User (System cfg')) = maxInt /\ Gid (User (System cfg')) = 998.
Proof.
  destruct (setSystemUser_records (H0 := demo_libs) (addr 0%nat) demo_huge
              (demo_config "secret" true) demo_quiet eq_refl)
    as (e & w' & cfg' & E & _ & D & _ & U & G & _).
  exists e, w', cfg'. split; [exact E|]. split; [exact D|].
  split; [rewrite U | rewrite G]; vm_compute; reflexivity.
Defined.

(** C10 as stated fails: [Atoi] reports an error for the identifier
    99999999999999999999, and the value recorded is the largest [int],
    not 0. *)
Lemma setSystemUser_records_bound :
  ~ unparsed_recorded_as_zero (H0 := demo_libs) (addr 0%nat) demo_huge demo_quiet.
Proof.
  intros Z.
  destruct (setSystemUser_spec (H0 := demo_libs) (addr 0%nat) demo_huge
              (demo_config "secret" true) demo_quiet eq_refl)
    as (e & w' & E & _ & D & _).
  destruct (Z e w' _ E D) as [ZU _].
  assert (R : snd (Atoi (user.Uid demo_huge)) <> None) by (vm_compute; discriminate).
  specialize (ZU R). vm_compute in ZU. discriminate.
Qed.

Lemma persist_failure_fails_call_witness :
  exists w2,
    EnsurePterodactylUser (H0 := demo_libs) (addr 0%nat) demo_readonly
    = Some ((Some demo_found, Some (SysError "read-only file system")), w2)
    /\ deref (addr 0%nat) w2
       = Some (record_identity demo_found (demo_config "secret" true)).
Proof.
  eexists.
  refine (let P := persist_failure_fails_call (H0 := demo_libs) (addr 0%nat)
                     (demo_config "secret" true) demo_found demo_readonly demo_readonly
                     _ (SysError "read-only file system") eq_refl eq_refl eq_refl
          in conj (proj1 P) (proj1 (proj2 P))).
Defined.

(** On the host without the account the first call creates it; the next
    call finds it and runs no command. *)
Lemma provisioning_idempotent_witness :
  match EnsurePterodactylUser (H0 := demo_libs) (addr 0%nat) demo_bare with
  | Some ((Some u, _), w1) =>
      found_without_creating (H0 := demo_libs) (addr 0%nat) u
        (record_identity u (demo_config "secret" true)) w1
  | _ => False
  end.
Proof.
  destruct (EnsurePterodactylUser (addr 0%nat) demo_bare) as [[[[u|] e] w1]|] eqn:E.
  - apply (proj2 (provisioning_idempotent (H0 := demo_libs) (addr 0%nat)
                    (demo_config "secret" true) demo_bare eq_refl) u e w1 E).
  - vm_compute in E. discriminate.
  - vm_compute in E. discriminate.
Defined.

Lemma reconciler_touches_uuid_dirs_witness :
  exists w',
    EnsureFilePermissions (H0 := demo_libs) (addr 0%nat) demo_quiet = Some (None, w')
    /\ Permutation (chowns (events_since demo_quiet w'))
         [EvChown demo_uuid_dir 1000 1000].
Proof.
  assert (P : Permutation (go_schedule (opsys demo_quiet) demo_entries) demo_entries).
  { symmetry. apply Permutation_rev. }
  destruct (reconciler_touches_uuid_dirs (H0 := demo_libs) (addr 0%nat)
              (demo_config "secret" true) demo_entries demo_found demo_quiet
              eq_refl eq_refl eq_refl eq_refl P)
    as (w' & E & PC & _).
  exists w'. split; [exact E | exact PC].
Defined.

Lemma reconciler_tolerates_failures_witness :
  exists w',
    EnsureFilePermissions (H0 := demo_libs) (addr 0%nat) demo_denied = Some (None, w')
    /\ In (EvWarn chown_warning "a1b2c3d4-e5f6-4789-8abc-def012345678"
             (SysError "permission denied"))
         (events_since demo_denied w').
Proof.
  assert (P : Permutation (go_schedule (opsys demo_denied) demo_entries) demo_entries).
  { symmetry. apply Permutation_rev. }
  destruct (reconciler_tolerates_failures (H0 := demo_libs) (addr 0%nat)
              (demo_config "secret" true) demo_entries demo_found demo_denied
              eq_refl eq_refl eq_refl eq_refl P)
    as (w' & E & _ & W & _).
  exists w'. split; [exact E|].
  apply (W {| os.Name := "a1b2c3d4-e5f6-4789-8abc-def012345678"; os.IsDir := true |}).
  - left. reflexivity.
  - reflexivity.
  - reflexivity.
Defined.

(** C4 as stated fails: on a host where the data directory is listed but
    the account is unknown, the call returns the error of the lookup. *)
Lemma reconciler_needs_the_account :
  ~ returns_nil_once_listed (H0 := demo_libs) (addr 0%nat) demo_bare.
Proof.
  intros R.
  destruct (R (demo_config "secret" true) demo_entries eq_refl eq_refl eq_refl)
    as (w' & E).
  vm_compute in E. discriminate.
Qed.

(** ** The further theorems at work *)

Lemma key_follows_configuration_witness :
  match run_calls (H0 := demo_libs) demo_session demo_quiet with
  | Some (_, w') => key_consistent w' /\ _config w' = addr 1%nat
  | None => False
  end.
Proof.
  destruct (run_calls demo_session demo_quiet) as [[[] w']|] eqn:E.
  - split.
    + apply (key_follows_configuration (H0 := demo_libs) demo_session demo_quiet w'
               (conj eq_refl (conj eq_refl eq_refl)) E).
    + vm_compute in E. injection E as <-. reflexivity.
  - vm_compute in E. discriminate.
Defined.

Lemma Get_returns_last_Set_witness :
  match
    run_calls (H0 := demo_libs)
      ([CallSet (addr 0%nat); CallGet] ++ CallSet (addr 1%nat)
         :: [CallWriteToDisk (addr 1%nat)])%list demo_quiet
  with
  | Some (_, w') => Get w' = Some (addr 1%nat, w')
  | None => False
  end.
Proof.
  destruct (run_calls _ demo_quiet) as [[[] w']|] eqn:E.
  - apply (Get_returns_last_Set (H0 := demo_libs) [CallSet (addr 0%nat); CallGet]
             [CallWriteToDisk (addr 1%nat)] (addr 1%nat) demo_quiet w' eq_refl E).
  - vm_compute in E. discriminate.
Defined.

Lemma no_path_no_write_witness :
  WriteToDisk (H0 := demo_libs) (addr 0%nat) demo_pathless
  = Some (Some (errorString no_path_msg), demo_pathless).
Proof.
  apply (proj1 (no_path_no_write (H0 := demo_libs) (addr 0%nat)
                  (set_path "" (demo_config "secret" true)) demo_found demo_pathless
                  eq_refl eq_refl)).
Defined.

Lemma WriteToDisk_twice_witness :
  match WriteToDisk (H0 := demo_libs) (addr 0%nat) demo_quiet with
  | Some (None, w1) =>
      exists w2, WriteToDisk (H0 := demo_libs) (addr 0%nat) w1 = Some (None, w2)
                 /\ files (opsys w2) = files (opsys w1)
  | _ => False
  end.
Proof.
  destruct (WriteToDisk (addr 0%nat) demo_quiet) as [[[e|] w1]|] eqn:E.
  - vm_compute in E. discriminate.
  - destruct (WriteToDisk_twice (H0 := demo_libs) (addr 0%nat)
                (demo_config "secret" true) demo_quiet w1 eq_refl E)
      as (w2 & E2 & F & _).
    exists w2. split; assumption.
  - vm_compute in E. discriminate.
Defined.

Lemma identity_recorded_in_place_witness :
  match EnsurePterodactylUser (H0 := demo_libs) (addr 0%nat) demo_bare with
  | Some ((Some u, _), w') =>
      exists cfg', deref (addr 0%nat) w' = Some cfg'
                   /\ Username (System cfg') = user.Username u
                   /\ AuthenticationToken cfg' = "secret"
  | _ => False
  end.
Proof.
  destruct (EnsurePterodactylUser (addr 0%nat) demo_bare) as [[[[u|] e] w']|] eqn:E.
  - destruct (identity_recorded_in_place (H0 := demo_libs) (addr 0%nat)
                (demo_config "secret" true) u e demo_bare w' eq_refl E)
      as (cfg' & D & N & S & _).
    exists cfg'. repeat split; try assumption.
    destruct S as (_ & _ & _ & _ & T & _). exact T.
  - vm_compute in E. discriminate.
  - vm_compute in E. discriminate.
Defined.

Lemma EnsurePterodactylUser_result_witness :
  exists ru e w',
    EnsurePterodactylUser (H0 := demo_libs) (addr 0%nat) demo_lookup_broken
    = Some ((ru, e), w')
    /\ (ru = None -> e <> None).
Proof.
  destruct (EnsurePterodactylUser_result (H0 := demo_libs) (addr 0%nat)
              (demo_config "secret" true) demo_lookup_broken eq_refl)
    as (ru & e & w' & E & N & _).
  exists ru, e, w'. split; [exact E|]. intros R. now apply N.
Defined.

Lemma early_failure_runs_nothing_witness :
  EnsurePterodactylUser (H0 := demo_libs) (addr 0%nat) demo_lookup_broken
  = Some ((None, Some (SysError "cannot read the account database")),
          demo_lookup_broken).
Proof.
  apply (proj1 (early_failure_runs_nothing (H0 := demo_libs) (addr 0%nat)
                  (demo_config "secret" true)
                  (SysError "cannot read the account database") demo_lookup_broken
                  eq_refl eq_refl)).
  reflexivity.
Defined.

Lemma creation_by_useradd_witness :
  exists ru e w',
    EnsurePterodactylUser (H0 := demo_libs) (addr 0%nat) demo_bare = Some ((ru, e), w')
    /\ commands (trace w')
       = [EvExec ["useradd"; "--system"; "--no-create-home"; "--shell";
                  "/bin/false"; "pterodactyl"]].
Proof.
  destruct (creation_by_useradd (H0 := demo_libs) (addr 0%nat)
              (demo_config "secret" true) (UnknownUserError "pterodactyl")
              {[ "ID" := "debian" ]} demo_bare eq_refl eq_refl eq_refl eq_refl eq_refl)
    as (ru & e & w' & E & C & _).
  exists ru, e, w'. split; [exact E | exact C].
Defined.

Lemma creation_on_alpine_witness :
  exists ru e w',
    EnsurePterodactylUser (H0 := demo_libs) (addr 0%nat) demo_alpine = Some ((ru, e), w')
    /\ commands (trace w')
       = [EvExec ["addgroup"; "-S"; "pterodactyl"];
          EvExec ["adduser"; "-S"; "-D"; "-H"; "-G"; "pterodactyl"; "-s";
                  "/bin/false"; "pterodactyl"]].
Proof.
  destruct (creation_on_alpine (H0 := demo_libs) (addr 0%nat)
              (demo_config "secret" true) (UnknownUserError "pterodactyl")
              {[ "ID" := "alpine" ]} demo_alpine eq_refl eq_refl eq_refl eq_refl eq_refl)
    as (ru & e & w' & E & C).
  exists ru, e, w'. split; [exact E | exact C].
Defined.

Lemma EnsureFilePermissions_errors_witness :
  match EnsureFilePermissions (H0 := demo_libs) (addr 0%nat) demo_bare with
  | Some (Some e, w') => w' = demo_bare /\ e = UnknownUserError "pterodactyl"
  | _ => False
  end.
Proof.
  destruct (EnsureFilePermissions (addr 0%nat) demo_bare) as [[[e|] w']|] eqn:E.
  - destruct (proj2 (EnsureFilePermissions_errors (H0 := demo_libs) (addr 0%nat)
                       (demo_config "secret" true) demo_bare eq_refl) e w' E)
      as (W & _ & [L|(entries & _ & U)]).
    + vm_compute in L. discriminate.
    + split; [exact W|]. vm_compute in U. now injection U as <-.
  - vm_compute in E. discriminate.
  - vm_compute in E. discriminate.
Defined.


Lemma reconciler_twice_witness :
  match EnsureFilePermissions (H0 := demo_libs) (addr 0%nat) demo_quiet with
  | Some (None, w1) =>
      exists w2,
        EnsureFilePermissions (H0 := demo_libs) (addr 0%nat) w1 = Some (None, w2)
        /\ owners (opsys w2) = owners (opsys w1)
  | _ => False
  end.
Proof.
  destruct (EnsureFilePermissions (addr 0%nat) demo_quiet) as [[[e|] w1]|] eqn:E.
  - vm_compute in E. discriminate.
  - apply (reconciler_twice (H0 := demo_libs) (addr 0%nat)
             (demo_config "secret" true) demo_entries demo_found demo_quiet w1
             eq_refl eq_refl eq_refl eq_refl E).
  - vm_compute in E. discriminate.
Defined.

Lemma workload_name_shape_witness :
  String.length "a1b2c3d4-e5f6-4789-8abc-def012345678" = 36%nat.
Proof.
  exact (proj1 (workload_name_shape "a1b2c3d4-e5f6-4789-8abc-def012345678" eq_refl)).
Defined.

Lemma recorded_identifier_witness :
  exists e w' cfg',
    setSystemUser (H0 := demo_libs) (addr 0%nat) demo_found demo_quiet = Some (e, w')
    /\ deref (addr 0%nat) w' = Some cfg'
    /\ Uid (User (System cfg')) = 1000.
Proof.
  destruct (recorded_identifier (H0 := demo_libs) (addr 0%nat) demo_found
              (demo_config "secret" true) demo_quiet eq_refl)
    as (e & w' & cfg' & E & D & U & _).
  exists e, w', cfg'. split; [exact E|]. split; [exact D|].
  apply U; [reflexivity | simpl; lia].
Defined.

Lemma demo_unmarshal_keeps_path :
  forall b c c', yaml_Unmarshal (Loader := demo_loader) b c = inr c' -> path c' = path c.
Proof. intros b c c' [= <-]. reflexivity. Qed.

Lemma ReadConfiguration_loads_witness :
  match ReadConfiguration (H0 := demo_loader) demo_path demo_flagged with
  | Some ((r, None), w') => GetPath r w' = Some (demo_path, w')
  | _ => False
  end.
Proof.
  destruct (ReadConfiguration (H0 := demo_loader) demo_path demo_flagged)
    as [[[r [e|]] w']|] eqn:E.
  - vm_compute in E. discriminate.
  - destruct (ReadConfiguration_loads (Ld := demo_loader) demo_path r demo_flagged w'
                demo_unmarshal_keeps_path E)
      as (b & d & cfg & _ & _ & _ & _ & G).
    exact G.
  - vm_compute in E. discriminate.
Defined.

Lemma write_then_read_witness :
  match WriteToDisk (H0 := demo_libs) (addr 0%nat) demo_flagged with
  | Some (None, w1) =>
      files (opsys w1) !! demo_path
      = Some "debug: false; token: secret; username: pterodactyl"
  | _ => False
  end.
Proof.
  destruct (WriteToDisk (addr 0%nat) demo_flagged) as [[[e|] w1]|] eqn:E.
  - vm_compute in E. discriminate.
  - destruct (write_then_read (Lb := demo_libs) (Ld := demo_loader) (addr 0%nat)
                (demo_config "secret" true)
                (set_System
                   (set_identity "pterodactyl" 0 0
                      (System (zero_Configuration (H0 := demo_loader))))
                   (zero_Configuration (H0 := demo_loader)))
                demo_flagged w1 eq_refl E eq_refl eq_refl)
      as (doc & Y & F & _).
    etransitivity; [exact F|]. vm_compute in Y. now injection Y as <-.
  - vm_compute in E. discriminate.
Defined.
